(** * Chromatic Rush: the ECS core of the game engine

    A shallow embedding of the entity manager, the Health component, the
    physics ground test, the collision system and its handlers, the
    achievement registry and the guard AI, followed by the properties of
    the specification that concern them.

    JavaScript numbers are modelled as rationals ([Q]). Where the
    rounding of a sum or a product decides what the code does next (the
    score, the paint threshold, the edges of the collision boxes, the
    game clock), the operations are those of IEEE 754 doubles, [Double].
    Objects that the engine shares and mutates in place (entities) live
    in an object store indexed by references; the collaborators that
    only receive notifications (UI, sound, particle effects, storage)
    are modelled by the trace of the calls made to them. *)

From Stdlib Require Import QArith Qminmax Qabs Qround Lqa Qpower.
From stdpp Require Import gmap strings list.

Local Open Scope string_scope.
Local Open Scope list_scope.
Local Open Scope Q_scope.

(** ** Numbers *)

Abbreviation number := Q.

Module Num.

(** [a < b] on numbers, as a boolean. *)
Definition ltb (a b : number) : bool :=
  (Qnum a * QDen b <? Qnum b * QDen a)%Z.

(** [a >= b]. *)
Definition geb (a b : number) : bool := negb (ltb a b).

(** [a > b]. *)
Definition gtb (a b : number) : bool := ltb b a.

(** Truthiness of a number: every number but zero. *)
Definition truthy (a : number) : bool := negb (Qnum a =? 0)%Z.

(** [o || d] for a possibly undefined numeric property [o]. *)
Definition or_default (o : option number) (d : number) : number :=
  match o with
  | Some v => if truthy v then v else d
  | None => d
  end.

End Num.

Arguments Num.ltb : simpl never.
Arguments Num.gtb : simpl never.
Arguments Num.geb : simpl never.
Arguments Num.or_default : simpl never.

(** ** Doubles

    A finite double is a rational with a significand of 53 bits; an
    operation of the language returns the double nearest to the exact
    result, the one with an even significand when two are equally near.
    Results beyond the range of the doubles (infinities, NaN) and the
    sign of zero are outside the model. *)

Module Double.
Definition pow2 (k : Z) : Q := 2 ^ k.

(** The [e] with [2^e <= q < 2^(e+1)], for a positive [q]. *)
Definition exponent (q : Q) : Z :=
  let e := (Z.log2 (Qnum q) - Z.log2 (Zpos (Qden q)))%Z in
  if Qle_bool (pow2 e) q then e else (e - 1)%Z.

(** The nearest integer, the even one of two that are equally near. *)
Definition nearest_even (q : Q) : Z :=
  let f := Qfloor q in
  match Qcompare (q - inject_Z f) (1 # 2) with
  | Lt => f
  | Gt => (f + 1)%Z
  | Eq => if Z.even f then f else (f + 1)%Z
  end.

(** Rounding of a positive number to 53 significant bits; below
    [2^-1022] the spacing of the doubles stays that of the subnormals. *)
Definition round_pos (q : Q) : Q :=
  let k := (Z.max (exponent q) (-1022) - 52)%Z in
  inject_Z (nearest_even (q / pow2 k)) * pow2 k.

Definition round (q : Q) : Q :=
  let q := Qred q in
  Qred (match (Qnum q ?= 0)%Z with
        | Eq => 0
        | Gt => round_pos q
        | Lt => - round_pos (- q)
        end).

(** [a + b], [a - b], [a * b] and [a / b] on doubles. *)
Definition add (a b : number) : number := round (a + b).
Definition sub (a b : number) : number := round (a - b).
Definition mul (a b : number) : number := round (a * b).
Definition div (a b : number) : number := round (a / b).

(** A decimal literal of the source denotes the nearest double. *)
Definition literal (q : Q) : number := round q.

(** The rationals that are doubles. *)
Definition representable (q : Q) : Prop := round q == q.
End Double.

Arguments Double.round : simpl never.
Arguments Double.add : simpl never.
Arguments Double.sub : simpl never.
Arguments Double.mul : simpl never.
Arguments Double.div : simpl never.
Arguments Double.literal : simpl never.

(** ** Component data types

    The classes of the engine, as records with the fields their
    constructors set. The back reference from a component to its entity
    is written by [addComponent] and never read; it is left out. *)

Module Transform.
Record t := mk {
  x : number; y : number; width : number; height : number;
  rotation : number; scale : number;
  previousX : number; previousY : number }.

Definition new (x0 y0 w h : number) : t :=
  mk x0 y0 w h 0 1 x0 y0.

Definition set_x (v : number) (c : t) : t :=
  mk v (y c) (width c) (height c) (rotation c) (scale c)
     (previousX c) (previousY c).
Definition set_y (v : number) (c : t) : t :=
  mk (x c) v (width c) (height c) (rotation c) (scale c)
     (previousX c) (previousY c).
Definition set_previous (px py : number) (c : t) : t :=
  mk (x c) (y c) (width c) (height c) (rotation c) (scale c) px py.
End Transform.

Module Velocity.
Record t := mk {
  vx : number; vy : number; maxVx : number; maxVy : number;
  friction : number; gravity : number }.

Definition new (vx0 vy0 : number) : t :=
  mk vx0 vy0 500 800 (85 # 100) 800.

Definition set_vx (v : number) (c : t) : t :=
  mk v (vy c) (maxVx c) (maxVy c) (friction c) (gravity c).
Definition set_vy (v : number) (c : t) : t :=
  mk (vx c) v (maxVx c) (maxVy c) (friction c) (gravity c).
End Velocity.

Module Sprite.
Record t := mk {
  type : string; frame : string; layer : number; visible : bool;
  opacity : number; flipX : bool; flipY : bool; tint : option string }.

Definition new (ty fr : string) (l : number) : t :=
  mk ty fr l true 1 false false None.

Definition set_frame (f : string) (c : t) : t :=
  mk (type c) f (layer c) (visible c) (opacity c) (flipX c) (flipY c)
     (tint c).
Definition set_flipX (b : bool) (c : t) : t :=
  mk (type c) (frame c) (layer c) (visible c) (opacity c) b (flipY c) (tint c).
Definition set_opacity (v : number) (c : t) : t :=
  mk (type c) (frame c) (layer c) (visible c) v (flipX c) (flipY c) (tint c).
End Sprite.

Module Animation.
(** The completion callback is a closure and is left out. *)
Record t := mk {
  frames : list string; duration : number; loop : bool;
  currentFrame : nat; timer : number; playing : bool }.

Definition new (fs : list string) (d : number) (l : bool) : t :=
  mk fs d l 0%nat 0 false.

Definition set_frames (fs : list string) (c : t) : t :=
  mk fs (duration c) (loop c) (currentFrame c) (timer c) (playing c).
Definition set_currentFrame (i : nat) (c : t) : t :=
  mk (frames c) (duration c) (loop c) i (timer c) (playing c).
Definition set_timer (v : number) (c : t) : t :=
  mk (frames c) (duration c) (loop c) (currentFrame c) v (playing c).
Definition set_playing (b : bool) (c : t) : t :=
  mk (frames c) (duration c) (loop c) (currentFrame c) (timer c) b.

(** [play(frames = null)]: any array given, the empty one too, replaces
    the frames. *)
Definition play (fs : option (list string)) (c : t) : t :=
  let c := match fs with Some fs => set_frames fs c | None => c end in
  set_timer 0 (set_currentFrame 0%nat (set_playing true c)).

Definition stop (c : t) : t :=
  set_timer 0 (set_currentFrame 0%nat (set_playing false c)).
End Animation.

Module Physics.
Record t := mk {
  static : bool; bounce : number; mass : number;
  grounded : bool; onGround : bool; groundY : number }.

Definition new : t := mk false 0 1 false false 0.

Definition set_grounded (b : bool) (c : t) : t :=
  mk (static c) (bounce c) (mass c) b (onGround c) (groundY c).
Definition set_onGround (b : bool) (c : t) : t :=
  mk (static c) (bounce c) (mass c) (grounded c) b (groundY c).
Definition set_groundY (v : number) (c : t) : t :=
  mk (static c) (bounce c) (mass c) (grounded c) (onGround c) v.
End Physics.

Module Collider.
Record t := mk {
  width : number; height : number; offsetX : number; offsetY : number;
  isTrigger : bool; layer : string; tags : list string }.

Definition new (w h ox oy : number) : t :=
  mk w h ox oy false "default" [].
Definition set_height (v : number) (c : t) : t :=
  mk (width c) v (offsetX c) (offsetY c) (isTrigger c) (layer c) (tags c).
Definition set_offsetY (v : number) (c : t) : t :=
  mk (width c) (height c) (offsetX c) v (isTrigger c) (layer c) (tags c).
End Collider.

Module Health.
Record t := mk {
  current : number; max : number;
  invulnerable : bool; invulnerabilityTime : number }.

Definition new (maxHealth : number) : t :=
  mk maxHealth maxHealth false 0.

Definition set_current (v : number) (c : t) : t :=
  mk v (max c) (invulnerable c) (invulnerabilityTime c).
Definition set_invulnerable (b : bool) (c : t) : t :=
  mk (current c) (max c) b (invulnerabilityTime c).
Definition set_invulnerabilityTime (v : number) (c : t) : t :=
  mk (current c) (max c) (invulnerable c) v.

(** [takeDamage(amount)]: the component after the call and the value
    returned. *)
Definition takeDamage (amount : number) (c : t) : t * bool :=
  if invulnerable c then (c, false)
  else (set_current (Qmax 0 (current c - amount)) c, true).

(** [heal(amount)]. *)
Definition heal (amount : number) (c : t) : t :=
  set_current (Qmin (max c) (current c + amount)) c.
End Health.

Module Actions.
Record t := mk { jump : bool; duck : bool; spray : bool }.
End Actions.

Module PlayerController.
Record t := mk {
  jumpForce : number; moveSpeed : number;
  isJumping : bool; isDucking : bool; isSpraying : bool;
  sprayPower : number; maxSprayPower : number; sprayRegenRate : number;
  actions : Actions.t }.

Definition new : t :=
  mk 400 250 false false false 100 100 20 (Actions.mk false false false).

Definition set_sprayPower (v : number) (c : t) : t :=
  mk (jumpForce c) (moveSpeed c) (isJumping c) (isDucking c)
     (isSpraying c) v (maxSprayPower c) (sprayRegenRate c) (actions c).
Definition set_actions (a : Actions.t) (c : t) : t :=
  mk (jumpForce c) (moveSpeed c) (isJumping c) (isDucking c)
     (isSpraying c) (sprayPower c) (maxSprayPower c) (sprayRegenRate c) a.
Definition set_isJumping (b : bool) (c : t) : t :=
  mk (jumpForce c) (moveSpeed c) b (isDucking c) (isSpraying c) (sprayPower c)
     (maxSprayPower c) (sprayRegenRate c) (actions c).
Definition set_isDucking (b : bool) (c : t) : t :=
  mk (jumpForce c) (moveSpeed c) (isJumping c) b (isSpraying c) (sprayPower c)
     (maxSprayPower c) (sprayRegenRate c) (actions c).
Definition set_isSpraying (b : bool) (c : t) : t :=
  mk (jumpForce c) (moveSpeed c) (isJumping c) (isDucking c) b (sprayPower c)
     (maxSprayPower c) (sprayRegenRate c) (actions c).
End PlayerController.

Module Point.
Record t := mk { x : number; y : number }.
End Point.

Module AIController.
(** [config] is a free-form object with numeric properties; [direction]
    is only created by the patrol behaviour and is undefined before. *)
Record t := mk {
  type : string; config : gmap string Q; state : string;
  timer : number; target : option Point.t; pathIndex : nat;
  direction : option number }.

Definition new (ty : string) (cfg : gmap string Q) : t :=
  mk ty cfg "idle" 0 None 0%nat None.

Definition set_state (s : string) (c : t) : t :=
  mk (type c) (config c) s (timer c) (target c) (pathIndex c)
     (direction c).
Definition set_timer (v : number) (c : t) : t :=
  mk (type c) (config c) (state c) v (target c) (pathIndex c)
     (direction c).
Definition set_target (p : option Point.t) (c : t) : t :=
  mk (type c) (config c) (state c) (timer c) p (pathIndex c)
     (direction c).
Definition set_direction (d : option number) (c : t) : t :=
  mk (type c) (config c) (state c) (timer c) (target c) (pathIndex c) d.
End AIController.

Module Collectible.
Record t := mk {
  type : string; value : number; collected : bool;
  floatOffset : number; floatSpeed : number; floatAmount : number }.

(** [floatOffset] is drawn at random by the constructor. *)
Definition new (ty : string) (v floatOffset0 : number) : t :=
  mk ty v false floatOffset0 2 5.

Definition set_collected (b : bool) (c : t) : t :=
  mk (type c) (value c) b (floatOffset c) (floatSpeed c) (floatAmount c).
End Collectible.

Module Particle.
Record t := mk {
  lifetime : number; maxLifetime : number; fadeOut : bool;
  color : string; size : number; trail : list Point.t;
  trailLength : nat }.

Definition new (l : number) (f : bool) : t :=
  mk l l f "#ffffff" 4 [] 5%nat.

Definition set_lifetime (v : number) (c : t) : t :=
  mk v (maxLifetime c) (fadeOut c) (color c) (size c) (trail c) (trailLength c).
Definition set_trail (tr : list Point.t) (c : t) : t :=
  mk (lifetime c) (maxLifetime c) (fadeOut c) (color c) (size c) tr (trailLength c).
End Particle.

Module Obstacle.
Record t := mk {
  type : string; damage : number; hit : bool;
  moveSpeed : number; activationDistance : number }.

Definition new (ty : string) (d : number) : t := mk ty d false 0 200.

Definition set_hit (b : bool) (c : t) : t :=
  mk (type c) (damage c) b (moveSpeed c) (activationDistance c).
End Obstacle.

Module StreetArt.
Record t := mk {
  painted : bool; paintProgress : number; requiredPaint : number;
  artStyle : string; colors : list string; baseColor : string }.

Definition new : t :=
  mk false 0 100 "graffiti"
     ["#ff6b6b"; "#4ecdc4"; "#ffe66d"; "#95e1d3"] "#666666".

Definition set_painted (b : bool) (c : t) : t :=
  mk b (paintProgress c) (requiredPaint c) (artStyle c) (colors c)
     (baseColor c).
Definition set_paintProgress (v : number) (c : t) : t :=
  mk (painted c) v (requiredPaint c) (artStyle c) (colors c)
     (baseColor c).
End StreetArt.

(** A component is an instance of one of the thirteen classes. *)
Inductive Component :=
| CTransform (c : Transform.t)
| CVelocity (c : Velocity.t)
| CSprite (c : Sprite.t)
| CAnimation (c : Animation.t)
| CPhysics (c : Physics.t)
| CCollider (c : Collider.t)
| CHealth (c : Health.t)
| CPlayerController (c : PlayerController.t)
| CAIController (c : AIController.t)
| CCollectible (c : Collectible.t)
| CParticle (c : Particle.t)
| CObstacle (c : Obstacle.t)
| CStreetArt (c : StreetArt.t).

(** [component.constructor.name]. *)
Definition constructor_name (c : Component) : string :=
  match c with
  | CTransform _ => "Transform"
  | CVelocity _ => "Velocity"
  | CSprite _ => "Sprite"
  | CAnimation _ => "Animation"
  | CPhysics _ => "Physics"
  | CCollider _ => "Collider"
  | CHealth _ => "Health"
  | CPlayerController _ => "PlayerController"
  | CAIController _ => "AIController"
  | CCollectible _ => "Collectible"
  | CParticle _ => "Particle"
  | CObstacle _ => "Obstacle"
  | CStreetArt _ => "StreetArt"
  end.

(** The names of the component classes of the program. *)
Definition component_classes : list string :=
  ["Transform"; "Velocity"; "Sprite"; "Animation"; "Physics"; "Collider";
   "Health"; "PlayerController"; "AIController"; "Collectible"; "Particle";
   "Obstacle"; "StreetArt"].

(** ** Entities *)

Module Entity.
Record t := mk {
  id : string;
  components : gmap string Component;
  tags : list string;
  active : bool;
  destroy : bool }.

Definition new (id0 : string) : t := mk id0 ∅ [] true false.

Definition addComponent (c : Component) (e : t) : t :=
  mk (id e) (<[constructor_name c := c]> (components e)) (tags e)
     (active e) (destroy e).

(** Component classes are looked up by name. *)
Definition getComponent (className : string) (e : t) : option Component :=
  components e !! className.

Definition hasComponent (className : string) (e : t) : bool :=
  bool_decide (is_Some (components e !! className)).

Definition removeComponent (className : string) (e : t) : t :=
  mk (id e) (delete className (components e)) (tags e) (active e)
     (destroy e).

(** [tags] is a set that iterates in insertion order. *)
Definition addTag (tag : string) (e : t) : t :=
  mk (id e) (components e)
     (if bool_decide (tag ∈ tags e) then tags e else tags e ++ [tag])
     (active e) (destroy e).

Definition hasTag (tag : string) (e : t) : bool :=
  bool_decide (tag ∈ tags e).

Definition removeTag (tag : string) (e : t) : t :=
  mk (id e) (components e) (filter (λ t', t' ≠ tag) (tags e)) (active e)
     (destroy e).

Definition set_destroy (b : bool) (e : t) : t :=
  mk (id e) (components e) (tags e) (active e) b.

(** Typed accessors: the component found under a class name, when it is
    an instance of that class. *)
Definition transform (e : t) : option Transform.t :=
  match getComponent "Transform" e with Some (CTransform c) => Some c | _ => None end.
Definition velocity (e : t) : option Velocity.t :=
  match getComponent "Velocity" e with Some (CVelocity c) => Some c | _ => None end.
Definition sprite (e : t) : option Sprite.t :=
  match getComponent "Sprite" e with Some (CSprite c) => Some c | _ => None end.
Definition physics (e : t) : option Physics.t :=
  match getComponent "Physics" e with Some (CPhysics c) => Some c | _ => None end.
Definition collider (e : t) : option Collider.t :=
  match getComponent "Collider" e with Some (CCollider c) => Some c | _ => None end.
Definition health (e : t) : option Health.t :=
  match getComponent "Health" e with Some (CHealth c) => Some c | _ => None end.
Definition playerController (e : t) : option PlayerController.t :=
  match getComponent "PlayerController" e with
  | Some (CPlayerController c) => Some c | _ => None end.
Definition aiController (e : t) : option AIController.t :=
  match getComponent "AIController" e with
  | Some (CAIController c) => Some c | _ => None end.
Definition collectible (e : t) : option Collectible.t :=
  match getComponent "Collectible" e with
  | Some (CCollectible c) => Some c | _ => None end.
Definition streetArt (e : t) : option StreetArt.t :=
  match getComponent "StreetArt" e with
  | Some (CStreetArt c) => Some c | _ => None end.
Definition animation (e : t) : option Animation.t :=
  match getComponent "Animation" e with
  | Some (CAnimation c) => Some c | _ => None end.
Definition particle (e : t) : option Particle.t :=
  match getComponent "Particle" e with
  | Some (CParticle c) => Some c | _ => None end.
Definition obstacle (e : t) : option Obstacle.t :=
  match getComponent "Obstacle" e with
  | Some (CObstacle c) => Some c | _ => None end.

(** Every component sits under the name of its own class: what
    [addComponent], the only writer of [components], establishes. *)
Definition well_keyed (e : t) : Prop :=
  ∀ k c, components e !! k = Some c → k = constructor_name c.
End Entity.

(** ** The object store

    Entities are objects: the manager, the systems and the game hold
    references to them and see each other's writes. *)

Definition ref := nat.
Definition Heap := ref → Entity.t.

Definition heap_set (h : Heap) (r : ref) (e : Entity.t) : Heap :=
  λ r', if decide (r' = r) then e else h r'.

(** An in-place write to a component of the entity at [r]. *)
Definition write_component (h : Heap) (r : ref) (c : Component) : Heap :=
  heap_set h r (Entity.addComponent c (h r)).

(** ** A Map that iterates in insertion order

    The primary store is a [Map] from ids to entities whose iteration
    order the queries expose, so it is kept as an association list with
    the behaviour of [Map.set] and [Map.delete]. *)

Module JsMap.
Section Ops.
Context {V : Type}.

Fixpoint set (k : string) (v : V) (m : list (string * V)) : list (string * V) :=
  match m with
  | [] => [(k, v)]
  | (k', v') :: m' =>
      if decide (k' = k) then (k, v) :: m' else (k', v') :: set k v m'
  end.

Fixpoint get (k : string) (m : list (string * V)) : option V :=
  match m with
  | [] => None
  | (k', v') :: m' => if decide (k' = k) then Some v' else get k m'
  end.

Definition delete (k : string) (m : list (string * V)) : list (string * V) :=
  filter (λ kv, kv.1 ≠ k) m.

Definition keys (m : list (string * V)) : list string := m.*1.
Definition values (m : list (string * V)) : list V := m.*2.
End Ops.
End JsMap.

(** ** EntityManager *)

Module EntityManager.
Record t := mk {
  entities : list (string * ref);
  entitiesByTag : gmap string (list ref);
  entitiesToAdd : list ref;
  entitiesToRemove : list ref }.

Definition new : t := mk [] ∅ [] [].

Definition addEntity (e : ref) (m : t) : t :=
  mk (entities m) (entitiesByTag m) (entitiesToAdd m ++ [e])
     (entitiesToRemove m).

Definition removeEntity (e : ref) (m : t) : t :=
  mk (entities m) (entitiesByTag m) (entitiesToAdd m)
     (entitiesToRemove m ++ [e]).

Definition getEntity (id : string) (m : t) : option ref :=
  JsMap.get id (entities m).

(** The test of one entity in [getEntitiesWith]. *)
Definition matches (h : Heap) (componentClasses : list string) (r : ref) : bool :=
  Entity.active (h r) && negb (Entity.destroy (h r))
  && forallb (λ c, Entity.hasComponent c (h r)) componentClasses.

Definition getEntitiesWith (h : Heap) (m : t) (componentClasses : list string) : list ref :=
  List.filter (matches h componentClasses) (JsMap.values (entities m)).

Definition getEntitiesByTag (tag : string) (m : t) : list ref :=
  default [] (entitiesByTag m !! tag).

(** [taggedEntities.indexOf(entity)] followed by [splice(index, 1)]:
    the first occurrence goes. *)
Fixpoint splice_first (r : ref) (l : list ref) : list ref :=
  match l with
  | [] => []
  | r' :: l' => if decide (r' = r) then l' else r' :: splice_first r l'
  end.

(** The first loop of [update], for one staged entity. *)
Definition index_tag (r : ref) (idx : gmap string (list ref)) (tag : string) : gmap string (list ref) :=
  <[tag := default [] (idx !! tag) ++ [r]]> idx.

Definition add_one (h : Heap) (acc : list (string * ref) * gmap string (list ref)) (r : ref) : list (string * ref) * gmap string (list ref) :=
  (JsMap.set (Entity.id (h r)) r acc.1,
   foldl (index_tag r) acc.2 (Entity.tags (h r))).

(** The scan for entities marked for destruction. *)
Definition marked (h : Heap) (store : list (string * ref)) : list ref :=
  List.filter (λ r, Entity.destroy (h r)) (JsMap.values store).

(** The removal loop, for one entity. *)
Definition unindex_tag (r : ref) (idx : gmap string (list ref)) (tag : string) : gmap string (list ref) :=
  match idx !! tag with
  | Some taggedEntities => <[tag := splice_first r taggedEntities]> idx
  | None => idx
  end.

Definition remove_one (h : Heap) (acc : list (string * ref) * gmap string (list ref)) (r : ref) : list (string * ref) * gmap string (list ref) :=
  (JsMap.delete (Entity.id (h r)) acc.1,
   foldl (unindex_tag r) acc.2 (Entity.tags (h r))).

(** The state after the additions, and the list the removal loop runs
    over. *)
Definition added (h : Heap) (m : t) : list (string * ref) * gmap string (list ref) :=
  foldl (add_one h) (entities m, entitiesByTag m) (entitiesToAdd m).

Definition removals (h : Heap) (m : t) : list ref :=
  entitiesToRemove m ++ marked h (added h m).1.

(** [update()], the flush. *)
Definition update (h : Heap) (m : t) : t :=
  let r := foldl (remove_one h) (added h m) (removals h m) in
  mk r.1 r.2 [] [].

Definition clear (m : t) : t := mk [] ∅ [] [].

Definition getEntityCount (m : t) : nat := length (entities m).

(** The store of a manager is keyed by the ids of its entities and,
    being a Map, holds a key once. *)
Definition store_ok (h : Heap) (store : list (string * ref)) : Prop :=
  NoDup (JsMap.keys store) ∧
  ∀ k r, (k, r) ∈ store → Entity.id (h r) = k.
End EntityManager.

(** ** Collaborators

    The UI, the sound player, the particle effects, the renderer shake and
    the storage only receive calls; the calls are recorded in order. The
    particles that an effect stages in the entity manager are not
    modelled, and the random point of a spray effect is recorded as the
    box it is drawn from. *)

Inductive Event :=
| UpdateScore (score : number)
| UpdateSprayPower (ratio : number)
| PlaySound (sound : string)
| CollectEffect (x y : number) (type : string)
| SprayEffect (x y width height : number)
| LandingEffect (x y : number)
| AchievementNotification (achievementId : string)
| SaveProgress (progress : gmap string bool).

(** ** AchievementSystem *)

Module AchievementSystem.
(** The registry is an object literal used as a map from achievement
    ids to achievements. A lookup [this.achievements[id]] also finds
    what every object literal inherits from [Object.prototype]: eleven
    functions and, under [__proto__], the prototype itself. The system
    only reads and writes the [unlocked] property of what a lookup
    finds, so the registry is its own properties, [achievements],
    together with the [unlocked] flags written so far on the inherited
    objects, [inherited], by name; the entry of [__proto__] is the flag
    of [Object.prototype], which the functions inherit as long as they
    have none of their own. The flags stored and loaded are booleans, as
    [saveProgress] writes them. An achievement's display texts only feed
    the notification and are left out. *)
Record Achievement := mkAchievement { unlocked : bool }.

Record t := mk {
  achievements : gmap string Achievement;
  inherited : gmap string bool;
  unlockedAchievements : list string;
  trace : list Event }.

Definition initAchievements : gmap string Achievement :=
  list_to_map
    (map (λ k, (k, mkAchievement false))
       ["first_jump"; "first_wall"; "speed_demon"; "artist"; "survivor";
        "collector"; "rebel"; "perfectionist"]).

(** The properties of [Object.prototype]. *)
Definition prototype_properties : list string :=
  ["constructor"; "__defineGetter__"; "__defineSetter__"; "hasOwnProperty";
   "__lookupGetter__"; "__lookupSetter__"; "isPrototypeOf";
   "propertyIsEnumerable"; "toString"; "valueOf"; "__proto__";
   "toLocaleString"].

(** [this.achievements[id]?.unlocked]: nothing when the lookup finds no
    object, else the flag of the object found, as a truth value (a flag
    that was never written is undefined, which is falsy). *)
Definition lookup_unlocked (id : string) (a : t) : option bool :=
  match achievements a !! id with
  | Some achievement => Some (unlocked achievement)
  | None =>
      if bool_decide (id ∈ prototype_properties) then
        match inherited a !! id with
        | Some flag => Some flag
        | None => Some (default false (inherited a !! "__proto__"))
        end
      else None
  end.

(** [this.achievements[id].unlocked = flag], for an [id] that the
    lookup finds. *)
Definition set_unlocked (id : string) (flag : bool) (a : t) : t :=
  match achievements a !! id with
  | Some _ =>
      mk (<[id := mkAchievement flag]> (achievements a)) (inherited a)
         (unlockedAchievements a) (trace a)
  | None =>
      mk (achievements a) (<[id := flag]> (inherited a))
         (unlockedAchievements a) (trace a)
  end.

(** [this.unlockedAchievements.add(id)]. *)
Definition add_unlocked (id : string) (a : t) : t :=
  mk (achievements a) (inherited a)
     (if bool_decide (id ∈ unlockedAchievements a)
      then unlockedAchievements a
      else unlockedAchievements a ++ [id])
     (trace a).

Definition emit (ev : Event) (a : t) : t :=
  mk (achievements a) (inherited a) (unlockedAchievements a) (trace a ++ [ev]).

(** [Object.entries] lists the registry's own properties only. *)
Definition saveProgress (a : t) : t :=
  emit (SaveProgress (unlocked <$> achievements a)) a.

Definition unlockAchievement (achievementId : string) (a : t) : t :=
  match lookup_unlocked achievementId a with
  | None => a
  | Some true => a
  | Some false =>
      let a1 := add_unlocked achievementId (set_unlocked achievementId true a) in
      let a2 := emit (AchievementNotification achievementId) a1 in
      let a3 := saveProgress a2 in
      emit (PlaySound "achievement") a3
  end.

(** [this.achievements[achievementId]?.unlocked], as a truth value. *)
Definition is_unlocked (achievementId : string) (a : t) : bool :=
  default false (lookup_unlocked achievementId a).

Definition checkAchievement (achievementId : string) (condition : bool) (a : t) : t :=
  if condition && negb (is_unlocked achievementId a)
  then unlockAchievement achievementId a
  else a.



(** The system as its constructor leaves it when the storage holds
    nothing, in a page where no inherited object has a flag yet. *)
Definition new : t := mk initAchievements ∅ [] [].
End AchievementSystem.

(** ** The game object, as far as the systems below reach into it *)

Module Stats.
Record t := mk {
  wallsPainted : number; coinsCollected : number;
  jumpCount : number; survivalTime : number }.
End Stats.

Module Game.
Record t := mk {
  heap : Heap;
  entityManager : EntityManager.t;
  achievementsSystem : AchievementSystem.t;
  score : number;
  gameSpeed : number;
  deltaTime : number;
  stats : Stats.t;
  player : option ref;
  canvasHeight : number;
  trace : list Event }.

Definition set_heap (h : Heap) (g : t) : t :=
  mk h (entityManager g) (achievementsSystem g) (score g) (gameSpeed g)
     (deltaTime g) (stats g) (player g) (canvasHeight g) (trace g).
Definition set_achievementsSystem (a : AchievementSystem.t) (g : t) : t :=
  mk (heap g) (entityManager g) a (score g) (gameSpeed g)
     (deltaTime g) (stats g) (player g) (canvasHeight g) (trace g).
Definition set_score (s : number) (g : t) : t :=
  mk (heap g) (entityManager g) (achievementsSystem g) s (gameSpeed g)
     (deltaTime g) (stats g) (player g) (canvasHeight g) (trace g).
Definition set_stats (s : Stats.t) (g : t) : t :=
  mk (heap g) (entityManager g) (achievementsSystem g) (score g)
     (gameSpeed g) (deltaTime g) s (player g) (canvasHeight g) (trace g).
Definition emit (ev : Event) (g : t) : t :=
  mk (heap g) (entityManager g) (achievementsSystem g) (score g)
     (gameSpeed g) (deltaTime g) (stats g) (player g) (canvasHeight g)
     (trace g ++ [ev]).

(** An in-place write to a component of the entity at [r]. *)
Definition write (r : ref) (c : Component) (g : t) : t :=
  set_heap (write_component (heap g) r c) g.

(** [addScore(points)]. *)
Definition addScore (points : number) (g : t) : t :=
  let g1 :=
    set_score (Double.add (score g)
                 (inject_Z (Qfloor (Double.mul points (gameSpeed g))))) g in
  emit (UpdateScore (score g1)) g1.

Definition checkAchievement (achievementId : string) (condition : bool) (g : t) : t :=
  set_achievementsSystem
    (AchievementSystem.checkAchievement achievementId condition
       (achievementsSystem g)) g.
End Game.

(** ** CollisionSystem

    A handler that dereferences a missing component throws a TypeError:
    the result is then [None]. *)

Module CollisionSystem.
Record Rect := mkRect { x : number; y : number; width : number; height : number }.

Definition rectIntersects (rectA rectB : Rect) : bool :=
  Num.ltb (x rectA) (Double.add (x rectB) (width rectB))
  && Num.gtb (Double.add (x rectA) (width rectA)) (x rectB)
  && Num.ltb (y rectA) (Double.add (y rectB) (height rectB))
  && Num.gtb (Double.add (y rectA) (height rectA)) (y rectB).

(** The offset-adjusted box of an entity. *)
Definition rect_of (transform : Transform.t) (collider : Collider.t) : Rect :=
  mkRect (Double.add (Transform.x transform) (Collider.offsetX collider))
         (Double.add (Transform.y transform) (Collider.offsetY collider))
         (Collider.width collider) (Collider.height collider).

Definition checkCollision (entityA entityB : Entity.t) : option bool :=
  transformA ← Entity.transform entityA;
  colliderA ← Entity.collider entityA;
  transformB ← Entity.transform entityB;
  colliderB ← Entity.collider entityB;
  Some (rectIntersects (rect_of transformA colliderA)
                       (rect_of transformB colliderB)).

Definition handlePlayerCollectibleCollision (g : Game.t) (player collectible : ref) : option Game.t :=
  collectibleComponent ← Entity.collectible (Game.heap g collectible);
  if Collectible.collected collectibleComponent then Some g
  else
    let g := Game.write collectible
               (CCollectible (Collectible.set_collected true collectibleComponent)) g in
    let playerTransform := Entity.transform (Game.heap g player) in
    let playerController := Entity.playerController (Game.heap g player) in
    let g := Game.addScore (Collectible.value collectibleComponent) g in
    let ctype := Collectible.type collectibleComponent in
    let g :=
      if String.eqb ctype "spray_can" then
        match playerController with
        | Some pc =>
            let pc := PlayerController.set_sprayPower
                        (Qmin (PlayerController.maxSprayPower pc)
                              (Double.add (PlayerController.sprayPower pc) 25)) pc in
            Game.emit (UpdateSprayPower
                         (Double.div (PlayerController.sprayPower pc)
                                     (PlayerController.maxSprayPower pc)))
              (Game.write player (CPlayerController pc) g)
        | None => g
        end
      else if String.eqb ctype "power_up" then
        let g :=
          match Entity.health (Game.heap g player) with
          | Some playerHealth =>
              Game.write player
                (CHealth (Health.set_invulnerabilityTime 3
                            (Health.set_invulnerable true playerHealth))) g
          | None => g
          end in
        Game.emit (PlaySound "powerup") g
      else Game.emit (PlaySound "collect") g in
    playerTransform ← playerTransform;
    let g := Game.emit
               (CollectEffect
                  (Double.add (Transform.x playerTransform)
                              (Double.div (Transform.width playerTransform) 2))
                  (Double.add (Transform.y playerTransform)
                              (Double.div (Transform.height playerTransform) 2))
                  ctype) g in
    Some (Game.set_heap
            (heap_set (Game.heap g) collectible
               (Entity.set_destroy true (Game.heap g collectible))) g).

(** The guard of the street-art handler: [None] when evaluating it
    throws. *)
Definition spraying_on (playerController : option PlayerController.t) (artComponent : option StreetArt.t) : option bool :=
  match playerController with
  | None => Some false
  | Some pc =>
      if Actions.spray (PlayerController.actions pc) then
        art ← artComponent;
        Some (negb (StreetArt.painted art)
              && Num.gtb (PlayerController.sprayPower pc) 0)
      else Some false
  end.

Definition colored_frame (sprite : Sprite.t) : Sprite.t :=
  if String.eqb (Sprite.type sprite) "building1"
  then Sprite.set_frame "colored_building1" sprite
  else if String.eqb (Sprite.type sprite) "building2"
  then Sprite.set_frame "colored_building2" sprite
  else sprite.

Definition handlePlayerStreetArtCollision (g : Game.t) (player streetart : ref) : option Game.t :=
  let playerController := Entity.playerController (Game.heap g player) in
  let artComponent := Entity.streetArt (Game.heap g streetart) in
  go ← spraying_on playerController artComponent;
  if negb go then Some g
  else
    pc ← playerController;
    art ← artComponent;
    let sprayRate := 50%Q in
    let deltaSpray := Double.mul sprayRate (Game.deltaTime g) in
    let art := StreetArt.set_paintProgress
                 (Double.add (StreetArt.paintProgress art) deltaSpray) art in
    let g := Game.write streetart (CStreetArt art) g in
    let pc := PlayerController.set_sprayPower
                (Qmax 0 (Double.sub (PlayerController.sprayPower pc)
                                    (Double.div deltaSpray 2))) pc in
    let g := Game.write player (CPlayerController pc) g in
    let g := Game.emit (UpdateSprayPower
                          (Double.div (PlayerController.sprayPower pc)
                                      (PlayerController.maxSprayPower pc))) g in
    transform ← Entity.transform (Game.heap g streetart);
    let g := Game.emit (SprayEffect (Transform.x transform) (Transform.y transform)
                          (Transform.width transform) (Transform.height transform)) g in
    if Num.geb (StreetArt.paintProgress art) (StreetArt.requiredPaint art)
       && negb (StreetArt.painted art)
    then
      let g := Game.write streetart (CStreetArt (StreetArt.set_painted true art)) g in
      let g := Game.addScore 100 g in
      let st := Game.stats g in
      let walls := Double.add (Stats.wallsPainted st) 1 in
      let g := Game.set_stats
                 (Stats.mk walls (Stats.coinsCollected st) (Stats.jumpCount st)
                    (Stats.survivalTime st)) g in
      let g := Game.checkAchievement "first_wall" (Num.geb walls 1) g in
      let g := Game.checkAchievement "artist" (Num.geb walls 10) g in
      let g := Game.emit (PlaySound "achievement") g in
      match Entity.sprite (Game.heap g streetart) with
      | Some sprite => Some (Game.write streetart (CSprite (colored_frame sprite)) g)
      | None => Some g
      end
    else Some g.

(** The calls of the obstacle handler go to the renderer, the effects,
    the UI, the sound player and the game itself; they are returned in
    order beside the game. [GameOver] stands for the call of
    [gameOver()], whose screens, final statistics and end-of-run
    achievements are not modelled. *)
Inductive Notice :=
| Traced (ev : Event)
| AddShake (amount : number)
| CrashEffect (x y : number)
| UpdateLives (lives : number)
| GameOver.

Definition handlePlayerObstacleCollision (g : Game.t) (player obstacle : ref) : option (Game.t * list Notice) :=
  let playerHealth := Entity.health (Game.heap g player) in
  let obstacleComponent := Entity.obstacle (Game.heap g obstacle) in
  let playerTransform := Entity.transform (Game.heap g player) in
  match playerHealth with
  | None => Some (g, [])
  | Some playerHealth =>
      if Health.invulnerable playerHealth then Some (g, [])
      else
        obstacleComponent ← obstacleComponent;
        if Obstacle.hit obstacleComponent then Some (g, [])
        else
          let '(playerHealth, damaged) :=
            Health.takeDamage (Obstacle.damage obstacleComponent) playerHealth in
          let g := Game.write player (CHealth playerHealth) g in
          if damaged then
            let g := Game.write obstacle
                       (CObstacle (Obstacle.set_hit true obstacleComponent)) g in
            let playerHealth :=
              Health.set_invulnerabilityTime (3 # 2)
                (Health.set_invulnerable true playerHealth) in
            let g := Game.write player (CHealth playerHealth) g in
            playerTransform ← playerTransform;
            let notices :=
              [AddShake 10;
               CrashEffect
                 (Transform.x playerTransform + Transform.width playerTransform / 2)
                 (Transform.y playerTransform + Transform.height playerTransform / 2);
               UpdateLives (Health.current playerHealth);
               Traced (PlaySound "crash")] in
            if negb (Num.gtb (Health.current playerHealth) 0)
            then Some (g, notices ++ [GameOver])
            else Some (g, notices)
          else Some (g, [])
  end.
End CollisionSystem.

(** ** PhysicsSystem *)

Module PhysicsSystem.
(** [this.gravity], pixels per second squared. *)
Definition gravity : number := 800.

Section Step.
(** [Math.pow] on a fractional exponent has no rational value in
    general; the step is parametric in it. *)
Variable Math_pow : number → number → number.

(** The body of the loop of [update] on the three components of one
    entity, in its two parts. First the integration: previous
    position, gravity, friction, clamp and move. *)
Definition integrate (deltaTime : number) (transform : Transform.t) (velocity : Velocity.t) (physics : Physics.t) : Transform.t * Velocity.t :=
  (* Store previous position *)
  let transform :=
    Transform.set_previous (Transform.x transform) (Transform.y transform) transform in
  (* Apply gravity if not static *)
  let velocity :=
    if negb (Physics.static physics)
    then Velocity.set_vy
           (Velocity.vy velocity
            + (if Physics.grounded physics then 0 else gravity * deltaTime))
           velocity
    else velocity in
  (* Apply friction *)
  let velocity :=
    if Physics.onGround physics
    then Velocity.set_vx
           (Velocity.vx velocity * Math_pow (Velocity.friction velocity) deltaTime)
           velocity
    else velocity in
  (* Clamp velocities *)
  let velocity :=
    Velocity.set_vx
      (Qmax (- Velocity.maxVx velocity)
            (Qmin (Velocity.maxVx velocity) (Velocity.vx velocity))) velocity in
  let velocity :=
    Velocity.set_vy
      (Qmax (- Velocity.maxVy velocity)
            (Qmin (Velocity.maxVy velocity) (Velocity.vy velocity))) velocity in
  (* Update position *)
  let transform :=
    Transform.set_x (Transform.x transform + Velocity.vx velocity * deltaTime) transform in
  let transform :=
    Transform.set_y (Transform.y transform + Velocity.vy velocity * deltaTime) transform in
  (transform, velocity).

(** Then the ground collision, [isPlayer] being the outcome of
    [entity.hasTag('player')]. The result carries the calls made to
    the collaborators. *)
Definition ground_collision (canvasHeight : number) (isPlayer : bool) (transform : Transform.t) (velocity : Velocity.t) (physics : Physics.t) : Transform.t * Velocity.t * Physics.t * list Event :=
  let groundY := canvasHeight - 150 in
  if Num.gtb (Transform.y transform + Transform.height transform) groundY then
    let transform := Transform.set_y (groundY - Transform.height transform) transform in
    if Num.gtb (Velocity.vy velocity) 0 then
      let velocity :=
        Velocity.set_vy (- Velocity.vy velocity * Physics.bounce physics) velocity in
      let physics :=
        Physics.set_groundY groundY
          (Physics.set_grounded true (Physics.set_onGround true physics)) in
      let events :=
        if isPlayer && Num.gtb (Qabs (Velocity.vy velocity)) 100
        then [LandingEffect (Transform.x transform + Transform.width transform / 2) groundY;
              PlaySound "land"]
        else [] in
      (transform, velocity, physics, events)
    else (transform, velocity, physics, [])
  else
    let physics := Physics.set_onGround false physics in
    let physics :=
      if Physics.grounded physics && Num.gtb (Velocity.vy velocity) 50
      then Physics.set_grounded false physics
      else physics in
    (transform, velocity, physics, []).

Definition step (deltaTime canvasHeight : number) (isPlayer : bool) (transform : Transform.t) (velocity : Velocity.t) (physics : Physics.t) : Transform.t * Velocity.t * Physics.t * list Event :=
  let '(transform, velocity) := integrate deltaTime transform velocity physics in
  ground_collision canvasHeight isPlayer transform velocity physics.

(** The loop body on the entity at [r]; the query guarantees the
    three components. *)
Definition update_entity (deltaTime : number) (g : Game.t) (r : ref) : option Game.t :=
  let entity := Game.heap g r in
  transform ← Entity.transform entity;
  velocity ← Entity.velocity entity;
  physics ← Entity.physics entity;
  let '(transform, velocity, physics, events) :=
    step deltaTime (Game.canvasHeight g) (Entity.hasTag "player" entity)
         transform velocity physics in
  let g := Game.write r (CTransform transform) g in
  let g := Game.write r (CVelocity velocity) g in
  let g := Game.write r (CPhysics physics) g in
  Some (foldl (λ g ev, Game.emit ev g) g events).

Definition update (deltaTime : number) (g : Game.t) : option Game.t :=
  foldl (λ acc r, g ← acc; update_entity deltaTime g r) (Some g)
    (EntityManager.getEntitiesWith (Game.heap g) (Game.entityManager g)
       ["Transform"; "Velocity"; "Physics"]).
End Step.
End PhysicsSystem.

(** ** AISystem: the guard behaviour *)

Module AISystem.
(** [updateGuardAI(entity, ai, transform, velocity, deltaTime)].
    [player] is the entity that [this.game.player] refers to, if any;
    [velocity] is undefined for an entity without that component, and
    writing through it throws ([None]). The result is the controller
    and the velocity after the call. *)
Definition updateGuardAI (player : option Entity.t) (ai : AIController.t) (transform : Transform.t) (velocity : option Velocity.t) : option (AIController.t * option Velocity.t) :=
  let config := AIController.config ai in
  let guardRange := Num.or_default (config !! "range") 150 in
  let alertRange := Num.or_default (config !! "alertRange") 100 in
  match player with
  | None => Some (ai, velocity)
  | Some player =>
      playerTransform ← Entity.transform player;
      let distance := Qabs (Transform.x transform - Transform.x playerTransform) in
      let state := AIController.state ai in
      if String.eqb state "idle" then
        if Num.ltb distance alertRange
        then Some (AIController.set_timer 0 (AIController.set_state "alert" ai), velocity)
        else Some (ai, velocity)
      else if String.eqb state "alert" then
        if Num.gtb (AIController.timer ai) 1 then
          let ai :=
            if Num.ltb distance guardRange
            then AIController.set_state "pursuing" ai
            else AIController.set_state "idle" ai in
          Some (AIController.set_timer 0 ai, velocity)
        else Some (ai, velocity)
      else if String.eqb state "pursuing" then
        let pursuitSpeed := Num.or_default (config !! "speed") 120 in
        let direction : number :=
          if Num.ltb (Transform.x transform) (Transform.x playerTransform) then 1 else -1 in
        v ← velocity;
        let v := Velocity.set_vx (pursuitSpeed * direction) v in
        if Num.gtb distance (guardRange * (3 # 2)) then
          let ai := AIController.set_state "returning" ai in
          let ai :=
            AIController.set_target
              (Some (Point.mk (Num.or_default (config !! "startX") (Transform.x transform))
                              (Transform.y transform))) ai in
          Some (ai, Some v)
        else Some (ai, Some v)
      else if String.eqb state "returning" then
        match AIController.target ai with
        | Some target =>
            let returnSpeed := Num.or_default (config !! "speed") 80 in
            let directionToStart : number :=
              if Num.ltb (Transform.x transform) (Point.x target) then 1 else -1 in
            v ← velocity;
            let v := Velocity.set_vx (returnSpeed * directionToStart) v in
            if Num.ltb (Qabs (Transform.x transform - Point.x target)) 10 then
              let ai := AIController.set_state "idle" ai in
              let ai := AIController.set_target None ai in
              Some (ai, Some (Velocity.set_vx 0 v))
            else Some (ai, Some v)
        | None => Some (ai, velocity)
        end
      else Some (ai, velocity)
  end.

(** [updatePatrolAI]. [random] is the draw of [Math.random()] that the
    idle state may consume. The result is [None] when the call throws
    (no Velocity) or computes with a direction that was never set,
    which yields no number. *)
Definition updatePatrolAI (random : number) (ai : AIController.t) (transform : Transform.t) (velocity : option Velocity.t) : option (AIController.t * option Velocity.t) :=
  let config := AIController.config ai in
  let patrolSpeed := Num.or_default (config !! "speed") 50 in
  let patrolRange := Num.or_default (config !! "range") 200 in
  let startX := Num.or_default (config !! "startX") (Transform.x transform) in
  let state := AIController.state ai in
  if String.eqb state "idle" then
    if Num.gtb (AIController.timer ai) (Num.or_default (config !! "idleTime") 2) then
      let ai := AIController.set_state "moving" ai in
      let ai := AIController.set_timer 0 ai in
      let ai := AIController.set_direction
                  (Some (if Num.gtb random (1 # 2) then 1 else -1)) ai in
      Some (ai, velocity)
    else Some (ai, velocity)
  else if String.eqb state "moving" then
    v ← velocity;
    direction ← AIController.direction ai;
    let v := Velocity.set_vx (patrolSpeed * direction) v in
    if Num.gtb (Qabs (Transform.x transform - startX)) patrolRange
       || Num.gtb (AIController.timer ai) 4
    then Some (AIController.set_timer 0 (AIController.set_state "turning" ai), Some v)
    else Some (ai, Some v)
  else if String.eqb state "turning" then
    v ← velocity;
    let v := Velocity.set_vx 0 v in
    if Num.gtb (AIController.timer ai) (1 # 2) then
      direction ← AIController.direction ai;
      let ai := AIController.set_direction (Some (direction * -1)) ai in
      let ai := AIController.set_state "moving" ai in
      Some (AIController.set_timer 0 ai, Some v)
    else Some (ai, Some v)
  else Some (ai, velocity).

(** [updateChaseAI]; [sprite] is the Sprite of the chasing entity, if
    it has one. *)
Definition updateChaseAI (player : option Entity.t) (ai : AIController.t) (transform : Transform.t) (velocity : option Velocity.t) (sprite : option Sprite.t) : option (AIController.t * option Velocity.t * option Sprite.t) :=
  match player with
  | None => Some (ai, velocity, sprite)
  | Some player =>
      playerTransform ← Entity.transform player;
      let chaseSpeed := Num.or_default (AIController.config ai !! "speed") 100 in
      let chaseRange := Num.or_default (AIController.config ai !! "range") 300 in
      let distance := Qabs (Transform.x transform - Transform.x playerTransform) in
      if Num.ltb distance chaseRange then
        let ai := AIController.set_state "chasing" ai in
        let direction : number :=
          if Num.ltb (Transform.x transform) (Transform.x playerTransform) then 1 else -1 in
        v ← velocity;
        let v := Velocity.set_vx (chaseSpeed * direction) v in
        Some (ai, Some v, Sprite.set_flipX (Num.ltb direction 0) <$> sprite)
      else
        let ai := AIController.set_state "idle" ai in
        v ← velocity;
        Some (ai, Some (Velocity.set_vx 0 v), sprite)
  end.

(** The body of the loop of [update] for one entity: the timer moves on,
    then the behaviour named by [type] runs, if it is one of the three. *)
Definition update_entity (player : option Entity.t) (random deltaTime : number) (ai : AIController.t) (transform : Transform.t) (velocity : option Velocity.t) (sprite : option Sprite.t) : option (AIController.t * option Velocity.t * option Sprite.t) :=
  let ai := AIController.set_timer (AIController.timer ai + deltaTime) ai in
  if String.eqb (AIController.type ai) "patrol" then
    r ← updatePatrolAI random ai transform velocity; Some (r.1, r.2, sprite)
  else if String.eqb (AIController.type ai) "chase" then
    updateChaseAI player ai transform velocity sprite
  else if String.eqb (AIController.type ai) "guard" then
    r ← updateGuardAI player ai transform velocity; Some (r.1, r.2, sprite)
  else Some (ai, velocity, sprite).
End AISystem.

(** ** Entity factories *)

Module ChromaticRush.
(** The entity built by [createPlayer], under the id the constructor
    generated for it. *)
Definition createPlayer (id : string) : Entity.t :=
  Entity.addTag "player"
    (Entity.addComponent (CCollider (Collider.new 28 32 2 0))
    (Entity.addComponent (CPlayerController PlayerController.new)
    (Entity.addComponent (CHealth (Health.new 3))
    (Entity.addComponent (CAnimation (Animation.new [] (2 # 10) true))
    (Entity.addComponent (CSprite (Sprite.new "player" "idle" 2))
    (Entity.addComponent (CPhysics Physics.new)
    (Entity.addComponent (CVelocity (Velocity.new 0 0))
    (Entity.addComponent (CTransform (Transform.new 100 350 32 32))
       (Entity.new id))))))))).
End ChromaticRush.

Module WorldGenerator.
Definition getCollectibleValue (type : string) : number :=
  if String.eqb type "coin" then 10
  else if String.eqb type "spray_can" then 25
  else if String.eqb type "power_up" then 50
  else 10.

(** The entity built by [spawnCollectible(x, type)]; [id] and
    [floatOffset] are the random draws of the constructors. *)
Definition spawnCollectible (id : string) (floatOffset x : number) (type : string) : Entity.t :=
  let groundY := 400 in
  let y := if String.eqb type "power_up" then groundY - 80 else groundY - 20 in
  let collectible :=
    Entity.addTag "collectible"
      (Entity.addComponent
         (CCollectible (Collectible.new type (getCollectibleValue type) floatOffset))
      (Entity.addComponent (CCollider (Collider.new 28 28 2 2))
      (Entity.addComponent (CSprite (Sprite.new "collectibles" type 1))
      (Entity.addComponent (CTransform (Transform.new x y 32 32))
         (Entity.new id))))) in
  if String.eqb type "power_up"
  then Entity.addComponent (CAnimation (Animation.new ["power_up"] (1 # 10) true)) collectible
  else collectible.

(** The entity built by [spawnMovingObstacle(x, type, aiType)]. *)
Definition spawnMovingObstacle (id : string) (x : number) (type aiType : string) : Entity.t :=
  Entity.addTag "ai"
    (Entity.addTag "obstacle"
    (Entity.addComponent
       (CAIController
          (AIController.new aiType
             (<["speed" := 80]> (<["range" := 150]> (<["startX" := x]> ∅)))))
    (Entity.addComponent (CObstacle (Obstacle.new type 1))
    (Entity.addComponent (CCollider (Collider.new 60 60 2 2))
    (Entity.addComponent (CSprite (Sprite.new "obstacles" type 1))
    (Entity.addComponent (CPhysics Physics.new)
    (Entity.addComponent (CVelocity (Velocity.new 0 0))
    (Entity.addComponent (CTransform (Transform.new x 200 64 64))
       (Entity.new id))))))))).

(** The entity built by [spawnBuilding(x)] when the building carries
    street art; [type] and [height] are its random draws. *)
Definition spawnPaintableBuilding (id : string) (x height : number) (type : string) : Entity.t :=
  Entity.addTag "streetart"
    (Entity.addComponent (CCollider (Collider.new 115 (height - 50) 2 25))
    (Entity.addComponent (CStreetArt StreetArt.new)
    (Entity.addTag "building"
    (Entity.addComponent (CSprite (Sprite.new "background" type 0))
    (Entity.addComponent (CTransform (Transform.new x (300 - height) 120 height))
       (Entity.new id)))))).

(** The spawn patterns and the weighted choice of [spawnPattern];
    [random] is the draw of [Math.random()]. *)
Record Pattern := mkPattern { type : string; weight : number; minDistance : number }.

Definition initPatterns : list Pattern :=
  [mkPattern "single_barrier" 30 0;
   mkPattern "double_cone" 25 200;
   mkPattern "pothole_series" 20 400;
   mkPattern "corporate_ambush" 15 600;
   mkPattern "drone_patrol" 10 800].

Definition availablePatterns (patterns : list Pattern) (distance : number) : list Pattern :=
  List.filter (λ p, Num.geb distance (minDistance p)) patterns.

(** The selection loop, the running value of [random] threaded
    through. *)
Fixpoint pick (random : number) (available : list Pattern) (selected : Pattern) : Pattern :=
  match available with
  | [] => selected
  | pattern :: rest =>
      let random := random - weight pattern in
      if negb (Num.gtb random 0) then pattern else pick random rest selected
  end.

(** The pattern that [spawnPattern] executes, or nothing when no
    pattern is available and the method returns at once. *)
Definition selectPattern (patterns : list Pattern) (distance random : number) : option Pattern :=
  match availablePatterns patterns distance with
  | [] => None
  | first :: rest =>
      let totalWeight := foldl (λ sum p, sum + weight p) 0 (first :: rest) in
      Some (pick (random * totalWeight) (first :: rest) first)
  end.


End WorldGenerator.

(** ** A concrete run

    The objects of a small game: the player, a coin next to it, a spray
    can, a guard drone and a paintable building. *)

Module Scenario.
Definition player : ref := 0%nat.
Definition coin : ref := 1%nat.
Definition spray_can : ref := 2%nat.
Definition drone : ref := 3%nat.
Definition wall : ref := 4%nat.

Definition heap : Heap :=
  λ r, match r with
       | 0%nat => ChromaticRush.createPlayer "_player"
       | 1%nat => WorldGenerator.spawnCollectible "_coin" 0 130 "coin"
       | 2%nat => WorldGenerator.spawnCollectible "_can" 0 440 "spray_can"
       | 3%nat => WorldGenerator.spawnMovingObstacle "_drone" 520 "security_drone" "guard"
       | 4%nat => WorldGenerator.spawnPaintableBuilding "_wall" 80 250 "building1"
       | _ => Entity.new "_spare"
       end.

(** The manager after the five objects were staged and flushed. *)
Definition manager : EntityManager.t :=
  EntityManager.update heap
    (EntityManager.addEntity wall
    (EntityManager.addEntity drone
    (EntityManager.addEntity spray_can
    (EntityManager.addEntity coin
    (EntityManager.addEntity player EntityManager.new))))).


(** The store in which the coin is already marked for destruction,
    and a manager in which the player and that coin are staged. *)
Definition heap_coin_destroyed : Heap :=
  heap_set heap coin (Entity.set_destroy true (heap coin)).

Definition staged : EntityManager.t :=
  EntityManager.addEntity coin (EntityManager.addEntity player EntityManager.new).

(** The player with half of its spray power left. *)
Definition heap_half_power : Heap :=
  write_component heap player
    (CPlayerController (PlayerController.set_sprayPower 50 PlayerController.new)).

(** The player holding the spray key, in front of a wall that is two
    units of paint short of its threshold. *)
Definition heap_spraying : Heap :=
  write_component
    (write_component heap player
       (CPlayerController
          (PlayerController.set_actions (Actions.mk false false true)
             PlayerController.new)))
    wall (CStreetArt (StreetArt.set_paintProgress 98 StreetArt.new)).

(** A game over the store [h], at a given speed and frame delta, on a
    canvas 600 units high. *)
Definition game (h : Heap) (gameSpeed deltaTime : number) : Game.t :=
  Game.mk h manager AchievementSystem.new
    0 gameSpeed deltaTime (Stats.mk 0 0 0 0) (Some player) 600 [].
End Scenario.

(** ** Vocabulary of the statements *)

(** How many times a reference occurs in a list. *)
Definition occurrences (r : ref) (l : list ref) : nat :=
  length (filter (λ x, x = r) l).


(** The four edges of the offset-adjusted box of an entity as the
    collision test computes them, every sum rounded to a double. *)
Definition left_edge (t : Transform.t) (c : Collider.t) : Q :=
  Double.add (Transform.x t) (Collider.offsetX c).
Definition right_edge (t : Transform.t) (c : Collider.t) : Q :=
  Double.add (left_edge t c) (Collider.width c).
Definition top_edge (t : Transform.t) (c : Collider.t) : Q :=
  Double.add (Transform.y t) (Collider.offsetY c).
Definition bottom_edge (t : Transform.t) (c : Collider.t) : Q :=
  Double.add (top_edge t c) (Collider.height c).

(** The same edges in exact arithmetic. *)
Definition exact_left_edge (t : Transform.t) (c : Collider.t) : Q :=
  Transform.x t + Collider.offsetX c.
Definition exact_right_edge (t : Transform.t) (c : Collider.t) : Q :=
  Transform.x t + Collider.offsetX c + Collider.width c.
Definition exact_top_edge (t : Transform.t) (c : Collider.t) : Q :=
  Transform.y t + Collider.offsetY c.
Definition exact_bottom_edge (t : Transform.t) (c : Collider.t) : Q :=
  Transform.y t + Collider.offsetY c + Collider.height c.


(** ** AnimationSystem *)

Module AnimationSystem.
(** The body of the loop of [update] on the Sprite and the Animation of
    one entity. The boolean tells whether the animation completed in
    this step, which is when its completion callback, if it has one, is
    called. The result is [None] if the frame written to the sprite
    would be undefined. *)
Definition step (deltaTime : number) (sprite : Sprite.t) (animation : Animation.t) : option (Sprite.t * Animation.t * bool) :=
  if Animation.playing animation && (0 <? length (Animation.frames animation))%nat then
    let animation := Animation.set_timer (Animation.timer animation + deltaTime) animation in
    if Num.geb (Animation.timer animation) (Animation.duration animation) then
      let animation := Animation.set_timer 0 animation in
      let animation :=
        Animation.set_currentFrame (S (Animation.currentFrame animation)) animation in
      let '(animation, completed) :=
        if (length (Animation.frames animation) <=? Animation.currentFrame animation)%nat then
          if Animation.loop animation
          then (Animation.set_currentFrame 0%nat animation, false)
          else
            (Animation.set_currentFrame (length (Animation.frames animation) - 1)%nat
               (Animation.set_playing false animation), true)
        else (animation, false) in
      frame ← Animation.frames animation !! Animation.currentFrame animation;
      Some (Sprite.set_frame frame sprite, animation, completed)
    else Some (sprite, animation, false)
  else Some (sprite, animation, false).
End AnimationSystem.

(** ** ParticleSystem *)

Module ParticleSystem.
(** The body of the loop of [update] on the components of one particle;
    the boolean tells whether the entity is marked [destroy]. A zero
    [maxLifetime] makes the opacity a division by zero, which is not a
    number in the engine and is 0 here. *)
Definition step (deltaTime : number) (transform : Transform.t) (particle : Particle.t) (sprite : option Sprite.t) : Particle.t * option Sprite.t * bool :=
  (* Update lifetime *)
  let particle := Particle.set_lifetime (Particle.lifetime particle - deltaTime) particle in
  (* Update trail *)
  let trail :=
    if (Particle.trailLength particle <=? length (Particle.trail particle))%nat
    then tail (Particle.trail particle)
    else Particle.trail particle in
  let particle :=
    Particle.set_trail (trail ++ [Point.mk (Transform.x transform) (Transform.y transform)])
      particle in
  (* Fade out *)
  let sprite :=
    if Particle.fadeOut particle
    then Sprite.set_opacity (Particle.lifetime particle / Particle.maxLifetime particle)
           <$> sprite
    else sprite in
  (* Remove expired particles *)
  (particle, sprite, negb (Num.gtb (Particle.lifetime particle) 0)).
End ParticleSystem.

(** ** PlayerSystem *)

Module PlayerSystem.
(** The components of a player that the system reads and writes. The
    Physics and the Sprite are dereferenced on every pass (the landing
    test and the opacity at its end), so a player without them makes
    the pass throw; Health, Animation and Collider are optional. *)
Record Parts := mkParts {
  velocity : Velocity.t;
  controller : PlayerController.t;
  physics : Physics.t;
  health : option Health.t;
  sprite : Sprite.t;
  animation : option Animation.t;
  collider : option Collider.t }.

(** The calls of the pass, in order: those of [Event], and the two
    effects requested at a point. *)
Inductive Call :=
| Traced (ev : Event)
| JumpEffect (x y : number)
| SprayAt (x y : number).

(** The body of the loop of [update] for one player. [pulse] is the
    value of [Math.sin(Date.now() * 0.01)] read for the blinking of an
    invulnerable player. *)
Definition step (deltaTime pulse : number) (transform : Transform.t) (p : Parts) : Parts * list Call :=
  let velocity := velocity p in
  let controller := controller p in
  let physics := physics p in
  let sprite := sprite p in
  let animation := animation p in
  let collider := collider p in
  (* Update invulnerability *)
  let health :=
    match health p with
    | Some health =>
        if Health.invulnerable health then
          let health :=
            Health.set_invulnerabilityTime
              (Health.invulnerabilityTime health - deltaTime) health in
          if negb (Num.gtb (Health.invulnerabilityTime health) 0)
          then Some (Health.set_invulnerable false health)
          else Some health
        else Some health
    | None => None
    end in
  (* Regenerate spray power *)
  let '(controller, calls) :=
    if Num.ltb (PlayerController.sprayPower controller)
               (PlayerController.maxSprayPower controller)
    then
      let controller :=
        PlayerController.set_sprayPower
          (Qmin (PlayerController.maxSprayPower controller)
                (PlayerController.sprayPower controller
                 + PlayerController.sprayRegenRate controller * deltaTime))
          controller in
      (controller,
       [Traced (UpdateSprayPower (PlayerController.sprayPower controller
                                  / PlayerController.maxSprayPower controller))])
    else (controller, []) in
  let actions := PlayerController.actions controller in
  (* Handle input actions *)
  let '(velocity, physics, controller, animation, calls) :=
    if Actions.jump actions && Physics.grounded physics
       && negb (PlayerController.isJumping controller)
    then
      (Velocity.set_vy (- PlayerController.jumpForce controller) velocity,
       Physics.set_grounded false physics,
       PlayerController.set_isJumping true controller,
       Animation.play (Some ["jump"]) <$> animation,
       calls ++ [Traced (PlaySound "jump");
                 JumpEffect (Transform.x transform + Transform.width transform / 2)
                            (Transform.y transform + Transform.height transform)])
    else (velocity, physics, controller, animation, calls) in
  let '(controller, collider, animation) :=
    if Actions.duck actions && Physics.grounded physics
    then
      (PlayerController.set_isDucking true controller,
       (λ c, Collider.set_offsetY 12 (Collider.set_height 20 c)) <$> collider,
       Animation.play (Some ["duck"]) <$> animation)
    else
      (PlayerController.set_isDucking false controller,
       (λ c, Collider.set_offsetY 0 (Collider.set_height 32 c)) <$> collider,
       animation) in
  let '(controller, animation, calls) :=
    if Actions.spray actions && Num.gtb (PlayerController.sprayPower controller) 0
    then
      (PlayerController.set_isSpraying true controller,
       Animation.play (Some ["spray"]) <$> animation,
       calls ++ [SprayAt (Transform.x transform + Transform.width transform + 5)
                         (Transform.y transform + Transform.height transform / 2);
                 Traced (PlaySound "spray")])
    else (PlayerController.set_isSpraying false controller, animation, calls) in
  (* Update sprite based on state *)
  let sprite :=
    if negb (from_option Animation.playing false animation) then
      if PlayerController.isJumping controller && negb (Physics.grounded physics)
      then Sprite.set_frame "jump" sprite
      else if PlayerController.isDucking controller then Sprite.set_frame "duck" sprite
      else if PlayerController.isSpraying controller then Sprite.set_frame "spray" sprite
      else Sprite.set_frame "idle" sprite
    else sprite in
  (* Reset action flags *)
  let controller :=
    PlayerController.set_actions (Actions.mk false false false) controller in
  (* Reset jumping flag when landing *)
  let controller :=
    if Physics.grounded physics
    then PlayerController.set_isJumping false controller
    else controller in
  (* Add visual effects for invulnerability *)
  let sprite :=
    if from_option Health.invulnerable false health
    then Sprite.set_opacity ((5 # 10) + (3 # 10) * pulse) sprite
    else Sprite.set_opacity 1 sprite in
  (mkParts velocity controller physics health sprite animation collider, calls).
End PlayerSystem.

(** ** The clock of the game loop *)

Module GameLoop.
Record Clock := mkClock {
  lastTime : number; gameTime : number; deltaTime : number;
  distance : number; gameSpeed : number; survivalTime : number }.

(** The head of [gameLoop(currentTime)] while the game is playing: the
    frame delta, capped at 100 ms, the distance run, and the game speed
    for the frame. Times are in milliseconds, deltas in seconds. *)
Definition tick (currentTime : number) (c : Clock) : Clock :=
  let deltaTime :=
    Qmin (Double.div (Double.sub currentTime (lastTime c)) 1000)
         (Double.literal (1 # 10)) in
  let gameTime := Double.add (gameTime c) deltaTime in
  let distance :=
    Double.add (distance c) (Double.mul (Double.mul 100 deltaTime) (gameSpeed c)) in
  mkClock currentTime gameTime deltaTime distance
    (Qmin 2 (Double.add 1 (Double.mul gameTime (Double.literal (1 # 100))))) gameTime.
End GameLoop.

(** ** Renderer: shake and camera *)

Module Renderer.
Definition addShake (amount shakeAmount : number) : number :=
  Qmax shakeAmount amount.

(** The decay of the shake at the start of [render]. *)
Definition decayShake (shakeAmount : number) : number :=
  if Num.gtb shakeAmount 0 then
    let shakeAmount := shakeAmount * (9 # 10) in
    if Num.ltb shakeAmount (1 # 10) then 0 else shakeAmount
  else shakeAmount.

End Renderer.

(** * Properties *)

(** ** Comparisons on numbers *)

Lemma ltb_lt (a b : Q) : Num.ltb a b = true ↔ a < b.
Proof. unfold Num.ltb, Qlt. apply Z.ltb_lt. Qed.

Lemma ltb_ge (a b : Q) : Num.ltb a b = false ↔ b <= a.
Proof. unfold Num.ltb, Qle. apply Z.ltb_ge. Qed.

Lemma gtb_gt (a b : Q) : Num.gtb a b = true ↔ b < a.
Proof. apply ltb_lt. Qed.

Lemma gtb_le (a b : Q) : Num.gtb a b = false ↔ a <= b.
Proof. apply ltb_ge. Qed.

Lemma geb_ge (a b : Q) : Num.geb a b = true ↔ b <= a.
Proof. unfold Num.geb. rewrite negb_true_iff. apply ltb_ge. Qed.

(** ** Rounding to a double

    The rounding is monotone, keeps the sign, and gives equal results on
    equal rationals. *)

Lemma pow2_pos (k : Z) : 0 < Double.pow2 k.
Proof. unfold Double.pow2. by apply Qpower_0_lt. Qed.

Lemma pow2_add (a b : Z) : Double.pow2 (a + b) == Double.pow2 a * Double.pow2 b.
Proof. unfold Double.pow2. by apply Qpower_plus. Qed.

Lemma pow2_le (a b : Z) : (a <= b)%Z → Double.pow2 a <= Double.pow2 b.
Proof. intros Hab. unfold Double.pow2. by apply Qpower_le_compat_l. Qed.

Lemma pow2_inject (k : Z) : (0 <= k)%Z → inject_Z (2 ^ k) == Double.pow2 k.
Proof. intros Hk. unfold Double.pow2. by rewrite Zpower_Qpower. Qed.

Lemma exponent_bounds (n : Z) (d : positive) :
  (0 < n)%Z →
  Double.pow2 (Z.log2 n - Z.log2 (Zpos d) - 1) <= n # d
  ∧ n # d < Double.pow2 (Z.log2 n - Z.log2 (Zpos d) + 1).
Proof.
  intros Hn.
  destruct (Z.log2_spec n Hn) as [Hn1 Hn2].
  destruct (Z.log2_spec (Zpos d) eq_refl) as [Hd1 Hd2].
  pose proof (Z.log2_nonneg n) as Ha. pose proof (Z.log2_nonneg (Zpos d)) as Hb.
  set (a := Z.log2 n) in *. set (b := Z.log2 (Zpos d)) in *.
  assert (Hq : (n # d) * inject_Z (Zpos d) == inject_Z n).
  { rewrite (Qmake_Qdiv n d). field. discriminate. }
  assert (HD : 0 < inject_Z (Zpos d)) by (by apply (Qlt_alt 0)).
  assert (Hna : Double.pow2 a <= inject_Z n).
  { rewrite <- pow2_inject by done. by rewrite <- Zle_Qle. }
  assert (Hna' : inject_Z n < Double.pow2 (a + 1)).
  { rewrite <- pow2_inject by lia. rewrite <- Zlt_Qlt. by rewrite <- Z.add_1_r in Hn2. }
  assert (Hdb : Double.pow2 b <= inject_Z (Zpos d)).
  { rewrite <- pow2_inject by done. by rewrite <- Zle_Qle. }
  assert (Hdb' : inject_Z (Zpos d) < Double.pow2 (b + 1)).
  { rewrite <- pow2_inject by lia. rewrite <- Zlt_Qlt. by rewrite <- Z.add_1_r in Hd2. }
  pose proof (pow2_pos (a - b - 1)) as Hp1. pose proof (pow2_pos (a - b + 1)) as Hp2.
  pose proof (pow2_pos b) as Hpb.
  split.
  - apply (Qmult_le_r _ _ (inject_Z (Zpos d))); [done |]. rewrite Hq.
    apply Qle_trans with (Double.pow2 (a - b - 1) * Double.pow2 (b + 1)).
    + apply Qmult_le_l; [done |]. by apply Qlt_le_weak.
    + rewrite <- pow2_add. by replace (a - b - 1 + (b + 1))%Z with a by lia.
  - apply (Qmult_lt_r _ _ (inject_Z (Zpos d))); [done |]. rewrite Hq.
    apply Qlt_le_trans with (Double.pow2 (a - b + 1) * Double.pow2 b).
    + rewrite <- pow2_add. by replace (a - b + 1 + b)%Z with (a + 1)%Z by lia.
    + by apply Qmult_le_l.
Qed.

Lemma exponent_spec (q : Q) :
  0 < q → Double.pow2 (Double.exponent q) <= q ∧ q < Double.pow2 (Double.exponent q + 1).
Proof.
  intros Hq. destruct q as [n d].
  assert (Hn : (0 < n)%Z).
  { unfold Qlt in Hq. simpl in Hq. lia. }
  destruct (exponent_bounds n d Hn) as [Hlow Hhigh].
  unfold Double.exponent. cbn [Qnum Qden].
  destruct (Qle_bool _ _) eqn:Hcmp.
  - apply Qle_bool_iff in Hcmp. by split.
  - split.
    + by replace (Z.log2 n - Z.log2 (Zpos d) - 1)%Z
        with (Z.log2 n - Z.log2 (Zpos d) - 1)%Z by lia.
    + replace (Z.log2 n - Z.log2 (Zpos d) - 1 + 1)%Z
        with (Z.log2 n - Z.log2 (Zpos d))%Z by lia.
      apply Qnot_le_lt. intros Hle. apply Qle_bool_iff in Hle. congruence.
Qed.

Lemma exponent_mono (a b : Q) :
  0 < a → a <= b → (Double.exponent a <= Double.exponent b)%Z.
Proof.
  intros Ha Hab.
  assert (Hb : 0 < b) by lra.
  destruct (exponent_spec a Ha) as [Ha1 _].
  destruct (exponent_spec b Hb) as [_ Hb2].
  destruct (Z_le_gt_dec (Double.exponent a) (Double.exponent b)) as [| Hgt]; [done |].
  assert (Hle : Double.pow2 (Double.exponent b + 1) <= Double.pow2 (Double.exponent a)) by (apply pow2_le; lia).
  lra.
Qed.

Lemma nearest_even_bounds (q : Q) :
  (Qfloor q <= Double.nearest_even q <= Qfloor q + 1)%Z.
Proof.
  unfold Double.nearest_even.
  destruct (Qcompare _ _); [destruct (Z.even _) | |]; lia.
Qed.

Lemma nearest_even_Z (z : Z) : Double.nearest_even (inject_Z z) = z.
Proof.
  unfold Double.nearest_even. rewrite Qfloor_Z.
  destruct (Qcompare (inject_Z z - inject_Z z) (1 # 2)) eqn:Hc; [| done |].
  - apply Qeq_alt in Hc. lra.
  - apply Qgt_alt in Hc. lra.
Qed.

Lemma nearest_even_mono (a b : Q) : a <= b → (Double.nearest_even a <= Double.nearest_even b)%Z.
Proof.
  intros Hab.
  pose proof (Qfloor_resp_le _ _ Hab) as Hf.
  pose proof (nearest_even_bounds a) as Ha. pose proof (nearest_even_bounds b) as Hb.
  destruct (Z_lt_le_dec (Qfloor a) (Qfloor b)) as [| Hge]; [lia |].
  assert (Heq : Qfloor a = Qfloor b) by lia.
  unfold Double.nearest_even. rewrite Heq.
  destruct (Qcompare (a - inject_Z (Qfloor b)) (1 # 2)) eqn:Hca;
    [apply Qeq_alt in Hca | apply Qlt_alt in Hca | apply Qgt_alt in Hca];
    (destruct (Qcompare (b - inject_Z (Qfloor b)) (1 # 2)) eqn:Hcb;
     [apply Qeq_alt in Hcb | apply Qlt_alt in Hcb | apply Qgt_alt in Hcb]);
    try (destruct (Z.even (Qfloor b))); try lia; exfalso; lra.
Qed.

Lemma round_pos_nonneg (q : Q) : 0 <= q → 0 <= Double.round_pos q.
Proof.
  intros Hq. unfold Double.round_pos.
  set (k := (Z.max (Double.exponent q) (-1022) - 52)%Z).
  pose proof (pow2_pos k) as Hk.
  apply Qmult_le_0_compat; [| lra].
  assert (H0 : inject_Z 0 <= q / Double.pow2 k).
  { apply Qle_shift_div_l; [done |]. change (inject_Z 0) with 0. lra. }
  apply nearest_even_mono in H0. rewrite nearest_even_Z in H0.
  rewrite Zle_Qle in H0. exact H0.
Qed.

Lemma round_pos_mono (a b : Q) : 0 < a → a <= b → Double.round_pos a <= Double.round_pos b.
Proof.
  intros Ha Hab. assert (Hb : 0 < b) by lra.
  pose proof (exponent_mono a b Ha Hab) as He.
  destruct (exponent_spec a Ha) as [_ Ha2]. destruct (exponent_spec b Hb) as [Hb1 _].
  unfold Double.round_pos.
  set (ka := (Z.max (Double.exponent a) (-1022) - 52)%Z).
  set (kb := (Z.max (Double.exponent b) (-1022) - 52)%Z).
  pose proof (pow2_pos ka) as Hka. pose proof (pow2_pos kb) as Hkb.
  destruct (Z_lt_le_dec ka kb) as [Hlt | Hge].
  - apply Qle_trans with (Double.pow2 (Double.exponent b)).
    + apply Qle_trans with (inject_Z (2 ^ 53) * Double.pow2 ka).
      * apply Qmult_le_r; [done |]. rewrite <- Zle_Qle.
        rewrite <- (nearest_even_Z (2 ^ 53)). apply nearest_even_mono.
        apply Qle_shift_div_r; [done |].
        rewrite pow2_inject by lia. rewrite <- pow2_add.
        apply Qlt_le_weak. apply Qlt_le_trans with (Double.pow2 (Double.exponent a + 1)); [done |].
        apply pow2_le. lia.
      * rewrite pow2_inject by lia. rewrite <- pow2_add. apply pow2_le. lia.
    + apply Qle_trans with (inject_Z (2 ^ 52) * Double.pow2 kb).
      * rewrite pow2_inject by lia. rewrite <- pow2_add.
        apply pow2_le. lia.
      * apply Qmult_le_r; [done |]. rewrite <- Zle_Qle.
        rewrite <- (nearest_even_Z (2 ^ 52)). apply nearest_even_mono.
        apply Qle_shift_div_l; [done |].
        rewrite pow2_inject by lia. rewrite <- pow2_add.
        apply Qle_trans with (Double.pow2 (Double.exponent b)); [| done].
        apply pow2_le. lia.
  - assert (Heq : ka = kb) by lia. rewrite Heq.
    apply Qmult_le_r; [done |]. rewrite <- Zle_Qle. apply nearest_even_mono.
    apply Qmult_le_r; [by apply Qinv_lt_0_compat | done].
Qed.

Lemma round_eq (a b : Q) : a == b → Double.round a = Double.round b.
Proof. intros Hab. unfold Double.round. by rewrite (Qred_complete _ _ Hab). Qed.

Lemma round_cases (q : Q) :
  (0 < q → Double.round q == Double.round_pos (Qred q))
  ∧ (q == 0 → Double.round q == 0)
  ∧ (q < 0 → Double.round q == - Double.round_pos (- Qred q)).
Proof.
  pose proof (Qred_correct q) as Hred.
  assert (Hr : Double.round q == match (Qnum (Qred q) ?= 0)%Z with
                          | Eq => 0
                          | Gt => Double.round_pos (Qred q)
                          | Lt => - Double.round_pos (- Qred q)
                          end) by apply Qred_correct.
  destruct (Qred q) as [n d]. unfold Qlt, Qeq in Hred |- *. cbn [Qnum Qden] in *.
  destruct (Z.compare_spec n 0) as [Hz | Hneg | Hpos];
    (split; [| split]); intros Hq; try exact Hr; exfalso; nia.
Qed.

Lemma round_sign (q : Q) :
  (0 <= q → 0 <= Double.round q) ∧ (q <= 0 → Double.round q <= 0).
Proof.
  destruct (round_cases q) as (Hpos & Hzero & Hneg).
  pose proof (Qred_correct q) as Hred.
  destruct (Q_dec q 0) as [[Hlt | Hgt] | Heq].
  - rewrite (Hneg Hlt). pose proof (round_pos_nonneg (- Qred q) ltac:(lra)).
    split; intros; lra.
  - rewrite (Hpos Hgt). pose proof (round_pos_nonneg (Qred q) ltac:(lra)).
    split; intros; lra.
  - rewrite (Hzero Heq). split; intros; lra.
Qed.

Lemma round_mono (a b : Q) : a <= b → Double.round a <= Double.round b.
Proof.
  intros Hab.
  pose proof (Qred_correct a) as Hra. pose proof (Qred_correct b) as Hrb.
  destruct (Qlt_le_dec 0 a) as [Ha | Ha].
  - rewrite (proj1 (round_cases a) Ha), (proj1 (round_cases b)) by lra.
    apply round_pos_mono; lra.
  - destruct (Qlt_le_dec b 0) as [Hb | Hb].
    + rewrite (proj2 (proj2 (round_cases a))), (proj2 (proj2 (round_cases b))) by lra.
      pose proof (round_pos_mono (- Qred b) (- Qred a) ltac:(lra) ltac:(lra)). lra.
    + pose proof (proj2 (round_sign a) Ha). pose proof (proj1 (round_sign b) Hb). lra.
Qed.

Lemma round_above (q x : Q) : Double.representable q → q <= x → q <= Double.round x.
Proof.
  intros Hrep Hle. apply Qle_trans with (Double.round q); [| by apply round_mono].
  unfold Double.representable in Hrep. apply Qle_lteq. right. by symmetry.
Qed.

Lemma round_below (q x : Q) : Double.representable q → x <= q → Double.round x <= q.
Proof.
  intros Hrep Hle. apply Qle_trans with (Double.round q); [by apply round_mono |].
  unfold Double.representable in Hrep. apply Qle_lteq. by right.
Qed.

Lemma round_Qred (q : Q) : Qred (Double.round q) = Double.round q.
Proof. unfold Double.round. apply Qred_complete, Qred_correct. Qed.

(** ** Health *)

Lemma takeDamage_invulnerable (c : Health.t) (amount : Q) :
  Health.invulnerable c = true → Health.takeDamage amount c = (c, false).
Proof. intros Hinv. unfold Health.takeDamage. by rewrite Hinv. Qed.

Lemma takeDamage_bounds (c : Health.t) (amount : Q) :
  0 <= amount →
  0 <= Health.current c <= Health.max c →
  0 <= Health.current (Health.takeDamage amount c).1 <= Health.max (Health.takeDamage amount c).1.
Proof.
  intros Hamount [Hlo Hhi]. unfold Health.takeDamage.
  destruct (Health.invulnerable c); simpl; [done |].
  destruct (Q.max_spec 0 (Health.current c - amount)) as [[H1 H2] | [H1 H2]];
    split; lra.
Qed.

Lemma heal_bounds (c : Health.t) (amount : Q) :
  0 <= amount →
  0 <= Health.current c <= Health.max c →
  0 <= Health.current (Health.heal amount c) <= Health.max (Health.heal amount c).
Proof.
  intros Hamount [Hlo Hhi]. unfold Health.heal. simpl.
  destruct (Q.min_spec (Health.max c) (Health.current c + amount)) as [[H1 H2] | [H1 H2]];
    split; lra.
Qed.

(** C3, as stated, fails: a negative amount passed to [takeDamage] raises
    [current] above [max] (and a negative amount passed to [heal] lowers
    it below zero). *)
Lemma C3_negative_amount_breaks_bounds :
  ¬ (∀ (c : Health.t) (amount : Q),
       0 <= Health.current c <= Health.max c →
       (0 <= Health.current (Health.takeDamage amount c).1
          <= Health.max (Health.takeDamage amount c).1)
       ∧ (0 <= Health.current (Health.heal amount c)
            <= Health.max (Health.heal amount c))).
Proof.
  intros H.
  destruct (H (Health.new 3) (-5)) as [[_ Hhi] _]; [by vm_compute |].
  by vm_compute in Hhi.
Qed.

(** C3, amended: [takeDamage] while [invulnerable] returns false and
    leaves the component unchanged, for every amount; and for every
    non-negative amount, [takeDamage] and [heal] keep [current] within
    [0, max]. *)
Theorem C3_health_clamped (c : Health.t) (amount : Q) :
  (Health.invulnerable c = true → Health.takeDamage amount c = (c, false))
  ∧ (0 <= amount →
     0 <= Health.current c <= Health.max c →
     (0 <= Health.current (Health.takeDamage amount c).1
        <= Health.max (Health.takeDamage amount c).1)
     ∧ (0 <= Health.current (Health.heal amount c)
          <= Health.max (Health.heal amount c))).
Proof.
  split; [apply takeDamage_invulnerable |].
  intros Hamount Hc. split; [by apply takeDamage_bounds | by apply heal_bounds].
Qed.

Lemma C3_health_clamped_witness :
  (Health.invulnerable (Health.mk 2 3 true (3 # 2)) = true ∧ (0 <= 1) ∧
   0 <= Health.current (Health.mk 2 3 true (3 # 2)) <= Health.max (Health.mk 2 3 true (3 # 2)))
  ∧ Health.takeDamage 1 (Health.mk 2 3 true (3 # 2)) = (Health.mk 2 3 true (3 # 2), false)
  ∧ (0 <= Health.current (Health.takeDamage 1 (Health.new 3)).1
       <= Health.max (Health.takeDamage 1 (Health.new 3)).1)
  ∧ (0 <= Health.current (Health.heal 1 (Health.mk 2 3 false 0))
       <= Health.max (Health.heal 1 (Health.mk 2 3 false 0))).
Proof.
  split; [by vm_compute |].
  split; [apply (C3_health_clamped (Health.mk 2 3 true (3 # 2)) 1); reflexivity |].
  split.
  - apply (C3_health_clamped (Health.new 3) 1); by vm_compute.
  - apply (C3_health_clamped (Health.mk 2 3 false 0) 1); by vm_compute.
Defined.

(** ** Collision detection *)

Lemma rectIntersects_spec (a b : CollisionSystem.Rect) :
  CollisionSystem.rectIntersects a b = true ↔
  CollisionSystem.x a < Double.add (CollisionSystem.x b) (CollisionSystem.width b)
  ∧ CollisionSystem.x b < Double.add (CollisionSystem.x a) (CollisionSystem.width a)
  ∧ CollisionSystem.y a < Double.add (CollisionSystem.y b) (CollisionSystem.height b)
  ∧ CollisionSystem.y b < Double.add (CollisionSystem.y a) (CollisionSystem.height a).
Proof.
  unfold CollisionSystem.rectIntersects.
  rewrite !andb_true_iff, !gtb_gt, !ltb_lt. tauto.
Qed.

(** C7, as stated, fails on boxes that touch: the edges are sums of
    doubles, rounded one addition at a time. The box at x 0.1 with
    offset 0.2 and width 0.3 ends exactly where the box at x 0.5 with
    offset 0.1 begins, but the code computes 0.6000000000000001 for the
    first edge and 0.6 for the second, and reports a collision. *)
Lemma C7_touching_boxes_collide :
  let tA := Transform.new (Double.literal (1 # 10)) 0 32 32 in
  let cA := Collider.new (Double.literal (3 # 10)) 32 (Double.literal (2 # 10)) 0 in
  let tB := Transform.new (Double.literal (5 # 10)) 0 32 32 in
  let cB := Collider.new 32 32 (Double.literal (1 # 10)) 0 in
  let entityA :=
    Entity.addComponent (CCollider cA) (Entity.addComponent (CTransform tA) (Entity.new "_a")) in
  let entityB :=
    Entity.addComponent (CCollider cB) (Entity.addComponent (CTransform tB) (Entity.new "_b")) in
  exact_right_edge tA cA == exact_left_edge tB cB
  ∧ left_edge tB cB < right_edge tA cA
  ∧ CollisionSystem.checkCollision entityA entityB = Some true.
Proof. repeat split; by vm_compute. Qed.

(** C7, amended: for entities with Transform and Collider,
    [checkCollision] returns (without throwing) true exactly when the
    offset-adjusted boxes overlap strictly on all four edges, each edge
    being the double that the code computes for it; boxes of which two
    computed edges coincide, horizontally or vertically, do not collide.
    Whenever the eight sums are exact, as they are for integer
    coordinates, this is the strict overlap of the exact boxes. *)
Theorem C7_collision_iff_strict_overlap (entityA entityB : Entity.t) (tA tB : Transform.t) (cA cB : Collider.t) :
  Entity.transform entityA = Some tA → Entity.collider entityA = Some cA →
  Entity.transform entityB = Some tB → Entity.collider entityB = Some cB →
  (∃ b, CollisionSystem.checkCollision entityA entityB = Some b
        ∧ (b = true ↔
           left_edge tA cA < right_edge tB cB ∧ left_edge tB cB < right_edge tA cA
           ∧ top_edge tA cA < bottom_edge tB cB ∧ top_edge tB cB < bottom_edge tA cA))
  ∧ ((right_edge tA cA == left_edge tB cB ∨ right_edge tB cB == left_edge tA cA
      ∨ bottom_edge tA cA == top_edge tB cB ∨ bottom_edge tB cB == top_edge tA cA) →
     CollisionSystem.checkCollision entityA entityB = Some false)
  ∧ (left_edge tA cA == exact_left_edge tA cA → right_edge tA cA == exact_right_edge tA cA →
     top_edge tA cA == exact_top_edge tA cA → bottom_edge tA cA == exact_bottom_edge tA cA →
     left_edge tB cB == exact_left_edge tB cB → right_edge tB cB == exact_right_edge tB cB →
     top_edge tB cB == exact_top_edge tB cB → bottom_edge tB cB == exact_bottom_edge tB cB →
     (CollisionSystem.checkCollision entityA entityB = Some true ↔
      exact_left_edge tA cA < exact_right_edge tB cB
      ∧ exact_left_edge tB cB < exact_right_edge tA cA
      ∧ exact_top_edge tA cA < exact_bottom_edge tB cB
      ∧ exact_top_edge tB cB < exact_bottom_edge tA cA)).
Proof.
  intros HtA HcA HtB HcB.
  unfold CollisionSystem.checkCollision. rewrite HtA, HcA, HtB, HcB. simpl.
  assert (Hspec := rectIntersects_spec (CollisionSystem.rect_of tA cA)
                     (CollisionSystem.rect_of tB cB)).
  simpl in Hspec.
  change (Double.add (Transform.x tA) (Collider.offsetX cA)) with (left_edge tA cA) in Hspec.
  change (Double.add (Transform.x tB) (Collider.offsetX cB)) with (left_edge tB cB) in Hspec.
  change (Double.add (Transform.y tA) (Collider.offsetY cA)) with (top_edge tA cA) in Hspec.
  change (Double.add (Transform.y tB) (Collider.offsetY cB)) with (top_edge tB cB) in Hspec.
  change (Double.add (left_edge tA cA) (Collider.width cA)) with (right_edge tA cA) in Hspec.
  change (Double.add (left_edge tB cB) (Collider.width cB)) with (right_edge tB cB) in Hspec.
  change (Double.add (top_edge tA cA) (Collider.height cA)) with (bottom_edge tA cA) in Hspec.
  change (Double.add (top_edge tB cB) (Collider.height cB)) with (bottom_edge tB cB) in Hspec.
  split; [| split].
  - eexists. split; [reflexivity |]. exact Hspec.
  - intros Htouch. f_equal. apply not_true_is_false. rewrite Hspec.
    intros (H1 & H2 & H3 & H4). destruct Htouch as [H | [H | [H | H]]]; lra.
  - intros HlA HrA HtopA HbA HlB HrB HtopB HbB.
    rewrite <- HlA, <- HrA, <- HtopA, <- HbA, <- HlB, <- HrB, <- HtopB, <- HbB.
    rewrite <- Hspec. split; [by intros [= ->] | by intros ->].
Qed.

Lemma C7_collision_iff_strict_overlap_witness :
  let tA := Transform.new 100 350 32 32 in
  let cA := Collider.new 28 32 2 0 in
  let tB := Transform.new 110 380 32 32 in
  let cB := Collider.new 28 28 0 2 in
  let entityB :=
    Entity.addComponent (CCollider cB) (Entity.addComponent (CTransform tB) (Entity.new "_b")) in
  CollisionSystem.checkCollision (ChromaticRush.createPlayer "_player") entityB = Some false
  ∧ left_edge tA cA < right_edge tB cB ∧ left_edge tB cB < right_edge tA cA.
Proof.
  intros tA cA tB cB entityB.
  split; [| split; by vm_compute].
  apply (C7_collision_iff_strict_overlap (ChromaticRush.createPlayer "_player") entityB
           tA tB cA cB); [reflexivity | reflexivity | reflexivity | reflexivity |].
  right. right. left. by vm_compute.
Defined.

(** ** Achievements *)








(** ** The ordered Map *)

Section JsMapFacts.
Context {V : Type}.
Implicit Types (m : list (string * V)) (k : string) (v : V).

Lemma JsMap_keys_set k v m k' :
  k' ∈ JsMap.keys (JsMap.set k v m) ↔ k' = k ∨ k' ∈ JsMap.keys m.
Proof.
  unfold JsMap.keys. induction m as [| [k0 v0] m IH]; simpl.
  - rewrite elem_of_cons, elem_of_nil. tauto.
  - case_decide as Hk; simpl.
    + subst k0. rewrite !elem_of_cons. tauto.
    + rewrite !elem_of_cons, IH. tauto.
Qed.

Lemma JsMap_NoDup_set k v m :
  NoDup (JsMap.keys m) → NoDup (JsMap.keys (JsMap.set k v m)).
Proof.
  unfold JsMap.keys. induction m as [| [k0 v0] m IH]; simpl; intros Hnd.
  - apply NoDup_singleton.
  - apply NoDup_cons in Hnd as [Hnot Hnd]. case_decide as Hk; simpl.
    + subst k0. by apply NoDup_cons.
    + apply NoDup_cons. split; [| by apply IH].
      intros Hin. apply (JsMap_keys_set k v m k0) in Hin as [-> | Hin]; done.
Qed.

Lemma JsMap_elem_of_set k v m (x : string * V) :
  x ∈ JsMap.set k v m → x = (k, v) ∨ x ∈ m.
Proof.
  induction m as [| [k0 v0] m IH]; simpl.
  - rewrite list_elem_of_singleton. tauto.
  - case_decide as Hk; rewrite !elem_of_cons; [tauto |].
    intros [-> | Hin]; [tauto |]. destruct (IH Hin); tauto.
Qed.

Lemma JsMap_elem_of_delete k m (x : string * V) :
  x ∈ JsMap.delete k m ↔ x ∈ m ∧ x.1 ≠ k.
Proof. unfold JsMap.delete. rewrite list_elem_of_filter. tauto. Qed.

Lemma JsMap_NoDup_delete k m :
  NoDup (JsMap.keys m) → NoDup (JsMap.keys (JsMap.delete k m)).
Proof.
  unfold JsMap.keys, JsMap.delete. induction m as [| [k0 v0] m IH]; simpl; [done |].
  intros Hnd. apply NoDup_cons in Hnd as [Hnot Hnd].
  rewrite filter_cons. case_decide; simpl; [| by apply IH].
  apply NoDup_cons. split; [| by apply IH].
  rewrite list_elem_of_fmap. intros ([k1 v1] & Hk & Hin). simpl in Hk. subst k1.
  apply list_elem_of_filter in Hin as [_ Hin].
  apply Hnot. apply list_elem_of_fmap. by exists (k0, v1).
Qed.
End JsMapFacts.

Lemma JsMap_get_elem {V : Type} (m : list (string * V)) (k : string) (v : V) :
  NoDup (JsMap.keys m) → (k, v) ∈ m → JsMap.get k m = Some v.
Proof.
  unfold JsMap.keys. induction m as [| [k0 v0] m IH]; simpl; intros Hnd Hin.
  - by apply elem_of_nil in Hin.
  - apply NoDup_cons in Hnd as [Hfresh Hnd].
    apply elem_of_cons in Hin as [Heq | Hin].
    + inversion Heq; subst. by rewrite decide_True.
    + case_decide as Hk; [| by apply IH]. subst k0. exfalso. apply Hfresh.
      apply list_elem_of_fmap. by exists (k, v).
Qed.

Lemma JsMap_get_None {V : Type} (m : list (string * V)) (k : string) :
  k ∉ JsMap.keys m → JsMap.get k m = None.
Proof.
  unfold JsMap.keys. induction m as [| [k0 v0] m IH]; simpl; intros Hk; [done |].
  apply not_elem_of_cons in Hk as [Hne Hk]. rewrite decide_False by done. by apply IH.
Qed.

Lemma JsMap_set_keeps {V : Type} (m : list (string * V)) (k k' : string) (v v' : V) :
  (k, v) ∈ m → (k' = k → v' = v) → (k, v) ∈ JsMap.set k' v' m.
Proof.
  induction m as [| [k0 v0] m IH]; simpl; intros Hin Hsame.
  - by apply elem_of_nil in Hin.
  - apply elem_of_cons in Hin as [Heq | Hin].
    + inversion Heq; subst. case_decide as Hk.
      * subst k'. rewrite Hsame by done. apply elem_of_cons. by left.
      * apply elem_of_cons. by left.
    + case_decide as Hk.
      * apply elem_of_cons. by right.
      * apply elem_of_cons. right. by apply IH.
Qed.

Lemma JsMap_set_elem {V : Type} (m : list (string * V)) (k : string) (v : V) :
  (k, v) ∈ JsMap.set k v m.
Proof.
  induction m as [| [k0 v0] m IH]; simpl.
  - by apply list_elem_of_singleton.
  - case_decide; apply elem_of_cons; [by left | by right].
Qed.


Lemma JsMap_get_Some_elem {V : Type} (m : list (string * V)) (k : string) (v : V) :
  JsMap.get k m = Some v → (k, v) ∈ m.
Proof.
  induction m as [| [k0 v0] m IH]; simpl; [done |].
  case_decide as Hk.
  - intros [= ->]. subst k0. apply elem_of_cons. by left.
  - intros Hget. apply elem_of_cons. right. by apply IH.
Qed.

(** ** The flush of the entity manager *)

Section Flush.
Variable h : Heap.
Implicit Types (acc : list (string * ref) * gmap string (list ref)) (l : list ref).

Lemma store_ok_new : EntityManager.store_ok h (EntityManager.entities EntityManager.new).
Proof. split; [apply NoDup_nil_2 | intros k r Hin; by apply elem_of_nil in Hin]. Qed.

(** *** Additions *)

Lemma add_store_ok acc l :
  EntityManager.store_ok h acc.1 →
  EntityManager.store_ok h (foldl (EntityManager.add_one h) acc l).1.
Proof.
  revert acc. induction l as [| r l IH]; intros acc Hok; simpl; [done |].
  apply IH. simpl. destruct Hok as [Hnd Hid]. split.
  - by apply JsMap_NoDup_set.
  - intros k r' Hin. apply JsMap_elem_of_set in Hin as [Heq | Hin]; [| by apply Hid].
    by inversion Heq.
Qed.

Lemma add_store_elem acc l k r :
  (k, r) ∈ (foldl (EntityManager.add_one h) acc l).1 →
  (k, r) ∈ acc.1 ∨ (r ∈ l ∧ k = Entity.id (h r)).
Proof.
  revert acc. induction l as [| r0 l IH]; intros acc Hin; simpl in *; [by left |].
  apply IH in Hin as [Hin | [Hin ->]]; simpl in *.
  - apply JsMap_elem_of_set in Hin as [Heq | Hin]; [| by left].
    inversion Heq; subst. right. split; [apply elem_of_cons; by left | done].
  - right. split; [apply elem_of_cons; by right | done].
Qed.

Lemma add_store_keys_mono acc l k :
  k ∈ JsMap.keys acc.1 → k ∈ JsMap.keys (foldl (EntityManager.add_one h) acc l).1.
Proof.
  revert acc. induction l as [| r0 l IH]; intros acc Hin; simpl; [done |].
  apply IH. simpl. apply JsMap_keys_set. by right.
Qed.

Lemma add_store_key acc l r :
  r ∈ l → Entity.id (h r) ∈ JsMap.keys (foldl (EntityManager.add_one h) acc l).1.
Proof.
  revert acc. induction l as [| r0 l IH]; intros acc Hin; simpl.
  - by apply elem_of_nil in Hin.
  - apply elem_of_cons in Hin as [-> | Hin]; [| by apply IH].
    apply add_store_keys_mono. simpl. apply JsMap_keys_set. by left.
Qed.

Lemma index_tags_mono r idx ts t x :
  x ∈ default [] (idx !! t) →
  x ∈ default [] (foldl (EntityManager.index_tag r) idx ts !! t).
Proof.
  revert idx. induction ts as [| t0 ts IH]; intros idx Hin; simpl; [done |].
  apply IH. unfold EntityManager.index_tag.
  destruct (decide (t0 = t)) as [-> | Hne].
  - rewrite lookup_insert_eq. simpl. apply elem_of_app. by left.
  - by rewrite lookup_insert_ne.
Qed.

Lemma index_tags_elem r idx ts t :
  t ∈ ts → r ∈ default [] (foldl (EntityManager.index_tag r) idx ts !! t).
Proof.
  revert idx. induction ts as [| t0 ts IH]; intros idx Hin; simpl.
  - by apply elem_of_nil in Hin.
  - apply elem_of_cons in Hin as [-> | Hin]; [| by apply IH].
    apply index_tags_mono. unfold EntityManager.index_tag.
    rewrite lookup_insert_eq. simpl. apply elem_of_app. right.
    by apply list_elem_of_singleton.
Qed.

Lemma add_index_mono acc l t x :
  x ∈ default [] (acc.2 !! t) →
  x ∈ default [] ((foldl (EntityManager.add_one h) acc l).2 !! t).
Proof.
  revert acc. induction l as [| r0 l IH]; intros acc Hin; simpl; [done |].
  apply IH. simpl. by apply index_tags_mono.
Qed.

Lemma add_index_elem acc l r t :
  r ∈ l → t ∈ Entity.tags (h r) →
  r ∈ default [] ((foldl (EntityManager.add_one h) acc l).2 !! t).
Proof.
  revert acc. induction l as [| r0 l IH]; intros acc Hin Ht; simpl.
  - by apply elem_of_nil in Hin.
  - apply elem_of_cons in Hin as [-> | Hin]; [| by apply IH].
    apply add_index_mono. simpl. by apply index_tags_elem.
Qed.

(** *** Removals *)

Lemma remove_store_elem acc l (x : string * ref) :
  x ∈ (foldl (EntityManager.remove_one h) acc l).1 ↔
  x ∈ acc.1 ∧ ∀ r, r ∈ l → x.1 ≠ Entity.id (h r).
Proof.
  revert acc. induction l as [| r0 l IH]; intros acc; simpl.
  - split; [intros Hin; split; [done | intros r Hr; by apply elem_of_nil in Hr] | tauto].
  - rewrite IH. simpl. rewrite JsMap_elem_of_delete. split.
    + intros [[Hin Hne] Hall]. split; [done |].
      intros r Hr. apply elem_of_cons in Hr as [-> | Hr]; [done | by apply Hall].
    + intros [Hin Hall]. split; [split; [done |] |].
      * apply Hall. apply elem_of_cons. by left.
      * intros r Hr. apply Hall. apply elem_of_cons. by right.
Qed.

Lemma remove_store_NoDup acc l :
  NoDup (JsMap.keys acc.1) →
  NoDup (JsMap.keys (foldl (EntityManager.remove_one h) acc l).1).
Proof.
  revert acc. induction l as [| r0 l IH]; intros acc Hnd; simpl; [done |].
  apply IH. simpl. by apply JsMap_NoDup_delete.
Qed.

Lemma occurrences_splice_first x r (l : list ref) :
  occurrences x (EntityManager.splice_first r l)
  = if decide (x = r) then pred (occurrences x l) else occurrences x l.
Proof.
  unfold occurrences. induction l as [| r0 l IH]; simpl.
  - by case_decide.
  - destruct (decide (r0 = r)) as [-> | Hne].
    + rewrite filter_cons. destruct (decide (x = r)) as [-> | Hx].
      * by rewrite decide_True.
      * by rewrite decide_False.
    + rewrite !filter_cons. destruct (decide (r0 = x)) as [-> | Hx0]; simpl.
      * rewrite IH. repeat case_decide; done.
      * exact IH.
Qed.

Lemma occurrences_unindex_tag x r idx t t' :
  occurrences x (default [] (EntityManager.unindex_tag r idx t !! t'))
  = if decide (t = t' ∧ x = r)
    then pred (occurrences x (default [] (idx !! t')))
    else occurrences x (default [] (idx !! t')).
Proof.
  unfold EntityManager.unindex_tag.
  destruct (idx !! t) as [bucket |] eqn:Hb.
  - destruct (decide (t = t')) as [-> | Hne].
    + rewrite lookup_insert_eq, Hb. simpl. rewrite occurrences_splice_first.
      destruct (decide (x = r)); [by rewrite decide_True | rewrite decide_False; tauto].
    + rewrite lookup_insert_ne by done. rewrite decide_False; tauto.
  - case_decide as Hd; [| done]. destruct Hd as [<- _]. by rewrite Hb.
Qed.

Lemma unindex_tags_other x r idx ts t :
  x ≠ r →
  occurrences x (default [] (foldl (EntityManager.unindex_tag r) idx ts !! t))
  = occurrences x (default [] (idx !! t)).
Proof.
  intros Hx. revert idx. induction ts as [| t0 ts IH]; intros idx; simpl; [done |].
  rewrite IH, occurrences_unindex_tag. rewrite decide_False; tauto.
Qed.



Lemma remove_index_other acc l x t :
  x ∉ l →
  occurrences x (default [] ((foldl (EntityManager.remove_one h) acc l).2 !! t))
  = occurrences x (default [] (acc.2 !! t)).
Proof.
  revert acc. induction l as [| r0 l IH]; intros acc Hx; simpl; [done |].
  apply not_elem_of_cons in Hx as [Hne Hx].
  rewrite IH by done. simpl. by apply unindex_tags_other.
Qed.




(** *** The flush as a whole *)

Lemma marked_elem store r :
  r ∈ EntityManager.marked h store ↔
  r ∈ JsMap.values store ∧ Entity.destroy (h r) = true.
Proof.
  unfold EntityManager.marked. rewrite !list_elem_of_In, filter_In. tauto.
Qed.

Lemma update_store_ok (m : EntityManager.t) :
  EntityManager.store_ok h (EntityManager.entities m) →
  EntityManager.store_ok h (EntityManager.entities (EntityManager.update h m)).
Proof.
  intros Hok. unfold EntityManager.update. simpl.
  assert (Hadd : EntityManager.store_ok h (EntityManager.added h m).1)
    by (by apply add_store_ok).
  destruct Hadd as [Hnd Hid]. split.
  - by apply remove_store_NoDup.
  - intros k r Hin. apply remove_store_elem in Hin as [Hin _]. by apply Hid.
Qed.

Lemma update_no_destroyed (m : EntityManager.t) k r :
  EntityManager.store_ok h (EntityManager.entities m) →
  (k, r) ∈ EntityManager.entities (EntityManager.update h m) →
  Entity.destroy (h r) = false.
Proof.
  intros Hok Hin. unfold EntityManager.update in Hin. simpl in Hin.
  apply remove_store_elem in Hin as [Hin Hall]. simpl in Hall.
  assert (Hadd : EntityManager.store_ok h (EntityManager.added h m).1)
    by (by apply add_store_ok).
  destruct (Entity.destroy (h r)) eqn:Hd; [| done]. exfalso.
  apply (Hall r).
  - unfold EntityManager.removals. apply elem_of_app. right.
    apply marked_elem. split; [| done].
    unfold JsMap.values. apply list_elem_of_fmap. by exists (k, r).
  - symmetry. by apply Hadd.
Qed.
End Flush.



Lemma id_set_destroy (h : Heap) (r r' : ref) (b : bool) :
  Entity.id (heap_set h r (Entity.set_destroy b (h r)) r') = Entity.id (h r').
Proof. unfold heap_set. by case_decide; subst. Qed.

Lemma store_ok_staging (h : Heap) (m : EntityManager.t) (e : ref) :
  EntityManager.store_ok h (EntityManager.entities m) →
  EntityManager.store_ok h (EntityManager.entities (EntityManager.addEntity e m))
  ∧ EntityManager.store_ok h (EntityManager.entities (EntityManager.removeEntity e m))
  ∧ EntityManager.store_ok h (EntityManager.entities (EntityManager.clear m)).
Proof. intros Hok. split; [done |]. split; [done |]. apply store_ok_new. Qed.

(** ** Queries *)

Lemma well_keyed_new (id : string) : Entity.well_keyed (Entity.new id).
Proof. intros k c Hl. simpl in Hl. by rewrite lookup_empty in Hl. Qed.

Lemma well_keyed_addComponent (c : Component) (e : Entity.t) :
  Entity.well_keyed e → Entity.well_keyed (Entity.addComponent c e).
Proof.
  intros Hwk k c' Hl. simpl in Hl.
  destruct (decide (constructor_name c = k)) as [<- | Hne].
  - rewrite lookup_insert_eq in Hl. congruence.
  - rewrite lookup_insert_ne in Hl by done. by apply Hwk.
Qed.

Lemma well_keyed_removeComponent (k : string) (e : Entity.t) :
  Entity.well_keyed e → Entity.well_keyed (Entity.removeComponent k e).
Proof.
  intros Hwk k' c Hl. simpl in Hl.
  destruct (decide (k = k')) as [<- | Hne].
  - by rewrite lookup_delete_eq in Hl.
  - rewrite lookup_delete_ne in Hl by done. by apply Hwk.
Qed.

Lemma constructor_name_class (c : Component) : constructor_name c ∈ component_classes.
Proof. destruct c; simpl; unfold component_classes; set_solver. Qed.

Lemma matches_spec (h : Heap) (componentClasses : list string) (r : ref) :
  EntityManager.matches h componentClasses r = true ↔
  Entity.active (h r) = true ∧ Entity.destroy (h r) = false
  ∧ ∀ c, c ∈ componentClasses → is_Some (Entity.getComponent c (h r)).
Proof.
  unfold EntityManager.matches.
  rewrite !andb_true_iff, negb_true_iff, forallb_forall.
  unfold Entity.hasComponent, Entity.getComponent.
  split.
  - intros [[Ha Hd] Hall]. repeat split; try done.
    intros c Hc. apply list_elem_of_In in Hc. apply Hall in Hc.
    by apply bool_decide_eq_true in Hc.
  - intros (Ha & Hd & Hall). repeat split; try done.
    intros c Hc. apply bool_decide_eq_true. apply Hall. by apply list_elem_of_In.
Qed.

Lemma getEntitiesWith_elem (h : Heap) (m : EntityManager.t) (componentClasses : list string) (r : ref) :
  r ∈ EntityManager.getEntitiesWith h m componentClasses ↔
  r ∈ JsMap.values (EntityManager.entities m)
  ∧ EntityManager.matches h componentClasses r = true.
Proof.
  unfold EntityManager.getEntitiesWith. rewrite !list_elem_of_In. apply filter_In.
Qed.

(** C1: every entity returned by [getEntitiesWith] is active, is not
    marked [destroy] and holds a component under every requested class
    name; and, entities holding each component under the name of its
    class, a request that names something that is no component class
    returns the empty list. The query is a total function: it returns a
    list on every input. *)
Theorem C1_query_sound (h : Heap) (m : EntityManager.t) (componentClasses : list string) :
  (∀ r, r ∈ EntityManager.getEntitiesWith h m componentClasses →
        Entity.active (h r) = true ∧ Entity.destroy (h r) = false
        ∧ ∀ c, c ∈ componentClasses →
               ∃ component, Entity.getComponent c (h r) = Some component)
  ∧ ((∀ r, r ∈ JsMap.values (EntityManager.entities m) → Entity.well_keyed (h r)) →
     (∃ c, c ∈ componentClasses ∧ c ∉ component_classes) →
     EntityManager.getEntitiesWith h m componentClasses = []).
Proof.
  split.
  - intros r Hr. apply getEntitiesWith_elem in Hr as [_ Hm].
    apply matches_spec in Hm as (Ha & Hd & Hall).
    split; [done | split; [done |]].
    intros c Hc. destruct (Hall c Hc) as [component Hcomp]. by exists component.
  - intros Hwk (c & Hc & Hunknown).
    destruct (EntityManager.getEntitiesWith h m componentClasses) as [| r l] eqn:Hq; [done |].
    exfalso.
    assert (Hr : r ∈ EntityManager.getEntitiesWith h m componentClasses)
      by (rewrite Hq; apply elem_of_cons; by left).
    apply getEntitiesWith_elem in Hr as [Hstored Hm].
    apply matches_spec in Hm as (_ & _ & Hall).
    destruct (Hall c Hc) as [component Hcomp].
    apply Hunknown. rewrite (Hwk r Hstored c component Hcomp).
    apply constructor_name_class.
Qed.

Lemma well_keyed_addTag (tag : string) (e : Entity.t) :
  Entity.well_keyed e → Entity.well_keyed (Entity.addTag tag e).
Proof. intros Hwk k c Hl. by apply Hwk. Qed.

Lemma well_keyed_set_destroy (b : bool) (e : Entity.t) :
  Entity.well_keyed e → Entity.well_keyed (Entity.set_destroy b e).
Proof. intros Hwk k c Hl. by apply Hwk. Qed.

Lemma scenario_well_keyed (r : ref) : Entity.well_keyed (Scenario.heap r).
Proof.
  do 5 (destruct r as [| r];
        [repeat first [apply well_keyed_addTag | apply well_keyed_addComponent
                      | apply well_keyed_new] |]).
  apply well_keyed_new.
Qed.

Lemma C1_query_sound_witness :
  EntityManager.getEntitiesWith Scenario.heap Scenario.manager ["Transform"; "Shield"] = [].
Proof.
  apply (C1_query_sound Scenario.heap Scenario.manager ["Transform"; "Shield"]).
  - intros r _. apply scenario_well_keyed.
  - exists "Shield". split; apply (bool_decide_unpack _); by vm_compute.
Defined.

(** ** Staging and flushing *)


Lemma update_store_elem (h : Heap) (m : EntityManager.t) (k : string) (r : ref) :
  (k, r) ∈ EntityManager.entities (EntityManager.update h m) ↔
  (k, r) ∈ (EntityManager.added h m).1
  ∧ ∀ e, e ∈ EntityManager.removals h m → k ≠ Entity.id (h e).
Proof. unfold EntityManager.update. simpl. apply remove_store_elem. Qed.











(** C10: when [update] returns, both staging buffers are empty and no
    entity left in the primary store has its [destroy] flag set; an
    entity that was staged for addition with the flag already set was
    put in the store by the additions (its id is a key after them) and
    is gone from the store when the flush ends, so that no query returns
    it. The store is keyed by the ids of its entities, as [update]
    keeps it. *)
Theorem C10_flush_postcondition (h : Heap) (m : EntityManager.t) :
  EntityManager.store_ok h (EntityManager.entities m) →
  EntityManager.entitiesToAdd (EntityManager.update h m) = []
  ∧ EntityManager.entitiesToRemove (EntityManager.update h m) = []
  ∧ EntityManager.store_ok h (EntityManager.entities (EntityManager.update h m))
  ∧ (∀ r, r ∈ JsMap.values (EntityManager.entities (EntityManager.update h m)) →
          Entity.destroy (h r) = false)
  ∧ (∀ e, e ∈ EntityManager.entitiesToAdd m → Entity.destroy (h e) = true →
          Entity.id (h e) ∈ JsMap.keys (EntityManager.added h m).1
          ∧ (e ∉ JsMap.values (EntityManager.entities (EntityManager.update h m)))
          ∧ ∀ componentClasses,
              e ∉ EntityManager.getEntitiesWith h (EntityManager.update h m) componentClasses).
Proof.
  intros Hok.
  assert (Hclean : ∀ r, r ∈ JsMap.values (EntityManager.entities (EntityManager.update h m)) →
                        Entity.destroy (h r) = false).
  { intros r Hr. unfold JsMap.values in Hr.
    apply list_elem_of_fmap in Hr as ([k r'] & -> & Hin). simpl.
    by apply (update_no_destroyed h m k r'). }
  split; [done |]. split; [done |]. split; [by apply update_store_ok |].
  split; [exact Hclean |].
  intros e He Hd. split; [by apply add_store_key |].
  assert (Hgone : e ∉ JsMap.values (EntityManager.entities (EntityManager.update h m))).
  { intros Hin. apply Hclean in Hin. congruence. }
  split; [exact Hgone |].
  intros cs Hq. apply getEntitiesWith_elem in Hq as [Hin _]. by apply Hgone.
Qed.

Lemma C10_flush_postcondition_witness :
  EntityManager.store_ok Scenario.heap_coin_destroyed
    (EntityManager.entities Scenario.staged)
  ∧ EntityManager.entitiesToAdd
      (EntityManager.update Scenario.heap_coin_destroyed Scenario.staged) = []
  ∧ Scenario.coin ∉ JsMap.values
      (EntityManager.entities
         (EntityManager.update Scenario.heap_coin_destroyed Scenario.staged)).
Proof.
  assert (Hok : EntityManager.store_ok Scenario.heap_coin_destroyed
                  (EntityManager.entities Scenario.staged))
    by apply store_ok_new.
  destruct (C10_flush_postcondition Scenario.heap_coin_destroyed Scenario.staged Hok)
    as (Hadd & _ & _ & _ & Hstaged).
  split; [exact Hok |]. split; [exact Hadd |].
  apply (Hstaged Scenario.coin).
  - apply (bool_decide_unpack _). by vm_compute.
  - reflexivity.
Defined.

(** ** Reads after writes in the object store *)

Lemma getComponent_write_eq (h : Heap) (r : ref) (c : Component) :
  Entity.getComponent (constructor_name c) (write_component h r c r) = Some c.
Proof.
  unfold write_component, heap_set, Entity.getComponent. rewrite decide_True by done.
  simpl. apply lookup_insert_eq.
Qed.

Lemma getComponent_write_ne (h : Heap) (r r' : ref) (c : Component) (k : string) :
  k ≠ constructor_name c →
  Entity.getComponent k (write_component h r c r') = Entity.getComponent k (h r').
Proof.
  intros Hk. unfold write_component, heap_set, Entity.getComponent.
  case_decide as Hr; [| done]. subst r'. simpl. by rewrite lookup_insert_ne.
Qed.

Lemma getComponent_write_other (h : Heap) (r r' : ref) (c : Component) (k : string) :
  r' ≠ r →
  Entity.getComponent k (write_component h r c r') = Entity.getComponent k (h r').
Proof.
  intros Hr. unfold write_component, heap_set. by rewrite decide_False.
Qed.

Lemma destroy_write (h : Heap) (r r' : ref) (c : Component) :
  Entity.destroy (write_component h r c r') = Entity.destroy (h r').
Proof. unfold write_component, heap_set. by case_decide; subst. Qed.

Lemma getComponent_set_destroy (h : Heap) (r r' : ref) (b : bool) (k : string) :
  Entity.getComponent k (heap_set h r (Entity.set_destroy b (h r)) r')
  = Entity.getComponent k (h r').
Proof. unfold heap_set. by case_decide; subst. Qed.

Lemma playerController_get (e : Entity.t) (pc : PlayerController.t) :
  Entity.getComponent "PlayerController" e = Some (CPlayerController pc) →
  Entity.playerController e = Some pc.
Proof. unfold Entity.playerController. by intros ->. Qed.

Lemma collectible_get (e : Entity.t) (cc : Collectible.t) :
  Entity.getComponent "Collectible" e = Some (CCollectible cc) →
  Entity.collectible e = Some cc.
Proof. unfold Entity.collectible. by intros ->. Qed.

Lemma streetArt_get (e : Entity.t) (art : StreetArt.t) :
  Entity.getComponent "StreetArt" e = Some (CStreetArt art) →
  Entity.streetArt e = Some art.
Proof. unfold Entity.streetArt. by intros ->. Qed.

(** ** Picking up a collectible *)

(** C4, as stated, fails on the score: once the game speed has risen
    above 1, a spray can worth 25 adds more than 25 to the score (37 at
    speed 1.5). *)
Lemma C4_score_scaled_by_game_speed :
  let g := Scenario.game Scenario.heap_half_power (3 # 2) (1 # 60) in
  let result :=
    CollisionSystem.handlePlayerCollectibleCollision g Scenario.player Scenario.spray_can in
  (Collectible.value <$> Entity.collectible (Game.heap g Scenario.spray_can)) = Some 25
  ∧ (Game.score <$> result) = Some 37
  ∧ ¬ (37 - Game.score g == 25).
Proof. repeat split; by vm_compute. Qed.

(** C4, amended: for a player colliding with a spray can that is not
    yet collected, the handler returns (it does not throw), adds 25 to
    [sprayPower], clamped at [maxSprayPower], which sets it to 75 for a
    controller with [sprayPower] 50 and [maxSprayPower] 100, sets the
    [collected] latch, marks the collectible entity [destroy], and adds
    to the score the collectible's value multiplied by the current game
    speed, the product rounded to a double and then down to an integer;
    at game speed 1 this is the value itself when the value is an
    integer. *)
Theorem C4_spray_can_pickup (g : Game.t) (player collectible : ref) (cc : Collectible.t) (pc : PlayerController.t) (pt : Transform.t) :
  Entity.getComponent "Collectible" (Game.heap g collectible) = Some (CCollectible cc) →
  Collectible.collected cc = false →
  Collectible.type cc = "spray_can" →
  Entity.getComponent "PlayerController" (Game.heap g player) = Some (CPlayerController pc) →
  Entity.getComponent "Transform" (Game.heap g player) = Some (CTransform pt) →
  ∃ g' pc' cc',
    CollisionSystem.handlePlayerCollectibleCollision g player collectible = Some g'
    ∧ Entity.playerController (Game.heap g' player) = Some pc'
    ∧ PlayerController.sprayPower pc'
        = Qmin (PlayerController.maxSprayPower pc)
               (Double.add (PlayerController.sprayPower pc) 25)
    ∧ PlayerController.sprayPower pc' <= PlayerController.maxSprayPower pc
    ∧ (PlayerController.sprayPower pc == 50 → PlayerController.maxSprayPower pc == 100 →
       PlayerController.sprayPower pc' == 75)
    ∧ Entity.collectible (Game.heap g' collectible) = Some cc'
    ∧ Collectible.collected cc' = true
    ∧ Entity.destroy (Game.heap g' collectible) = true
    ∧ Game.score g'
        = Double.add (Game.score g)
            (inject_Z (Qfloor (Double.mul (Collectible.value cc) (Game.gameSpeed g))))
    ∧ (∀ n : Z, Game.gameSpeed g == 1 → Collectible.value cc == inject_Z n →
                Double.representable (Collectible.value cc) →
                Game.score g' = Double.add (Game.score g) (Collectible.value cc)
                ∧ (Double.representable (Game.score g + Collectible.value cc) →
                   Game.score g' == Game.score g + Collectible.value cc)).
Proof.
  intros Hcc Hnew Htype Hpc Hpt.
  unfold CollisionSystem.handlePlayerCollectibleCollision.
  rewrite (collectible_get _ _ Hcc). simpl. rewrite Hnew, Htype. simpl.
  unfold Entity.transform at 1.
  rewrite getComponent_write_ne, Hpt by done. simpl.
  unfold Entity.playerController at 1 2 3.
  rewrite getComponent_write_ne, Hpc by done. simpl.
  eexists _, _, _. split; [reflexivity |].
  split.
  { apply playerController_get. simpl. rewrite getComponent_set_destroy.
    apply (getComponent_write_eq _ player (CPlayerController _)). }
  split; [reflexivity |].
  split; [simpl; apply Q.le_min_l |].
  split.
  { simpl. intros Hsp Hmax.
    assert (Hsum : Double.add (PlayerController.sprayPower pc) 25 = 75).
    { unfold Double.add. rewrite (round_eq _ (50 + 25)) by (by rewrite Hsp).
      by vm_compute. }
    rewrite Hsum.
    destruct (Q.min_spec (PlayerController.maxSprayPower pc) 75) as [[H1 H2] | [H1 H2]];
      lra. }
  split.
  { apply collectible_get. simpl. rewrite getComponent_set_destroy.
    rewrite getComponent_write_ne by done.
    apply (getComponent_write_eq _ collectible (CCollectible _)). }
  split; [reflexivity |].
  split; [simpl; unfold heap_set at 1; by rewrite decide_True |].
  split; [reflexivity |].
  intros n Hspeed Hvalue Hrep.
  cbn [Game.score Game.gameSpeed Game.addScore Game.emit Game.write Game.set_heap
       Game.set_score].
  assert (Hprod : Double.mul (Collectible.value cc) (Game.gameSpeed g) == inject_Z n).
  { unfold Double.mul.
    rewrite (round_eq _ (Collectible.value cc)) by (rewrite Hspeed; ring).
    transitivity (Collectible.value cc); [exact Hrep | exact Hvalue]. }
  assert (Hscore : Double.add (Game.score g)
                     (inject_Z (Qfloor (Double.mul (Collectible.value cc) (Game.gameSpeed g))))
                   = Double.add (Game.score g) (Collectible.value cc)).
  { unfold Double.add. apply round_eq.
    rewrite (Qfloor_comp _ _ Hprod), Qfloor_Z, Hvalue. reflexivity. }
  split; [exact Hscore |].
  intros Hsum. rewrite Hscore. exact Hsum.
Qed.

Lemma C4_spray_can_pickup_witness :
  let g := Scenario.game Scenario.heap_half_power 1 (1 # 64) in
  ∃ g' pc' cc',
    CollisionSystem.handlePlayerCollectibleCollision g Scenario.player Scenario.spray_can
      = Some g'
    ∧ Entity.playerController (Game.heap g' Scenario.player) = Some pc'
    ∧ PlayerController.sprayPower pc' == 75
    ∧ Entity.collectible (Game.heap g' Scenario.spray_can) = Some cc'
    ∧ Collectible.collected cc' = true
    ∧ Entity.destroy (Game.heap g' Scenario.spray_can) = true
    ∧ Game.score g' == Game.score g + 25.
Proof.
  intros g.
  destruct (C4_spray_can_pickup g Scenario.player Scenario.spray_can
              (Collectible.new "spray_can" 25 0)
              (PlayerController.set_sprayPower 50 PlayerController.new)
              (Transform.new 100 350 32 32))
    as (g' & pc' & cc' & Hrun & Hpc' & _ & _ & Hpower & Hcc' & Hlatch & Hdestroy & _
        & Hexact);
    [by vm_compute | reflexivity | reflexivity | by vm_compute | by vm_compute |].
  exists g', pc', cc'.
  split; [exact Hrun |]. split; [exact Hpc' |].
  split; [apply Hpower; reflexivity |].
  split; [exact Hcc' |]. split; [exact Hlatch |]. split; [exact Hdestroy |].
  apply (Hexact 25%Z); by vm_compute.
Defined.

(** ** Painting street art *)

Lemma spraying_off_noop (g : Game.t) (player streetart : ref) :
  CollisionSystem.spraying_on (Entity.playerController (Game.heap g player))
    (Entity.streetArt (Game.heap g streetart)) = Some false →
  CollisionSystem.handlePlayerStreetArtCollision g player streetart = Some g.
Proof.
  intros Hoff. unfold CollisionSystem.handlePlayerStreetArtCollision.
  by rewrite Hoff.
Qed.

(** Once the art is painted the handler changes nothing, whatever the
    player does. *)
Lemma painted_noop (g : Game.t) (player streetart : ref) (art : StreetArt.t) :
  Entity.streetArt (Game.heap g streetart) = Some art →
  StreetArt.painted art = true →
  CollisionSystem.handlePlayerStreetArtCollision g player streetart = Some g.
Proof.
  intros Hart Hp. apply spraying_off_noop. rewrite Hart.
  unfold CollisionSystem.spraying_on.
  destruct (Entity.playerController (Game.heap g player)) as [pc |]; [| done].
  destruct (Actions.spray (PlayerController.actions pc)); [| done].
  simpl. by rewrite Hp.
Qed.

Lemma spraying_paints (g : Game.t) (player streetart : ref) (pc : PlayerController.t) (art : StreetArt.t) (tr : Transform.t) :
  Entity.getComponent "PlayerController" (Game.heap g player) = Some (CPlayerController pc) →
  Entity.getComponent "StreetArt" (Game.heap g streetart) = Some (CStreetArt art) →
  Entity.getComponent "Transform" (Game.heap g streetart) = Some (CTransform tr) →
  Actions.spray (PlayerController.actions pc) = true →
  StreetArt.painted art = false →
  0 < PlayerController.sprayPower pc →
  ∃ g' pc' art',
    CollisionSystem.handlePlayerStreetArtCollision g player streetart = Some g'
    ∧ Entity.playerController (Game.heap g' player) = Some pc'
    ∧ Entity.streetArt (Game.heap g' streetart) = Some art'
    ∧ StreetArt.paintProgress art' = Double.add (StreetArt.paintProgress art) (Double.mul 50 (Game.deltaTime g))
    ∧ PlayerController.sprayPower pc'
        = Qmax 0 (Double.sub (PlayerController.sprayPower pc)
                  (Double.div (Double.mul 50 (Game.deltaTime g)) 2))
    ∧ StreetArt.painted art'
        = Num.geb (Double.add (StreetArt.paintProgress art) (Double.mul 50 (Game.deltaTime g)))
                  (StreetArt.requiredPaint art)
    ∧ Game.score g'
        = (if StreetArt.painted art'
           then Double.add (Game.score g)
                  (inject_Z (Qfloor (Double.mul 100 (Game.gameSpeed g))))
           else Game.score g)
    ∧ Stats.wallsPainted (Game.stats g')
        = (if StreetArt.painted art'
           then Double.add (Stats.wallsPainted (Game.stats g)) 1
           else Stats.wallsPainted (Game.stats g)).
Proof.
  intros Hpc Hart Htr Hspray Hunpainted Hpower.
  unfold CollisionSystem.handlePlayerStreetArtCollision.
  rewrite (playerController_get _ _ Hpc), (streetArt_get _ _ Hart).
  unfold CollisionSystem.spraying_on. rewrite Hspray. simpl.
  rewrite Hunpainted. simpl.
  apply gtb_gt in Hpower. rewrite Hpower. simpl.
  unfold Entity.transform at 1.
  rewrite !getComponent_write_ne, Htr by done. simpl.
  rewrite andb_true_r.
  destruct (Num.geb (Double.add (StreetArt.paintProgress art) (Double.mul 50 (Game.deltaTime g)))
              (StreetArt.requiredPaint art)) eqn:Hcross.
  - destruct (Entity.sprite _) as [sprite |] eqn:Hsprite;
      eexists _, _, _; (split; [reflexivity |]); simpl.
    + split.
      { apply playerController_get. rewrite !getComponent_write_ne by (by destruct sprite).
        apply (getComponent_write_eq _ player (CPlayerController _)). }
      split.
      { apply streetArt_get. rewrite getComponent_write_ne by done.
        apply (getComponent_write_eq _ streetart (CStreetArt _)). }
      done.
    + split.
      { apply playerController_get. rewrite !getComponent_write_ne by done.
        apply (getComponent_write_eq _ player (CPlayerController _)). }
      split.
      { apply streetArt_get.
        apply (getComponent_write_eq _ streetart (CStreetArt _)). }
      done.
  - eexists _, _, _. split; [reflexivity |]. simpl.
    split.
    { apply playerController_get.
      apply (getComponent_write_eq _ player (CPlayerController _)). }
    split.
    { apply streetArt_get. rewrite getComponent_write_ne by done.
      apply (getComponent_write_eq _ streetart (CStreetArt _)). }
    simpl. rewrite Hunpainted. done.
Qed.

(** C5: while the player's spray flag is set, its spray power is
    positive and the art is unpainted, the handler adds 50 times the
    frame delta to the paint progress and takes half of that from the
    spray power, never below 0, every operation being the one on
    doubles; the progress does not decrease for a non-negative frame
    delta; the art becomes painted, with the score and the painted-wall
    counter raised, exactly when the progress so computed reaches the
    required paint. In every other case, and in particular once
    [painted] is set, the handler returns the game unchanged: progress,
    score, counters, achievements and trace. *)
Theorem C5_street_art_painting (g : Game.t) (player streetart : ref) :
  (∀ pc art tr,
     Entity.getComponent "PlayerController" (Game.heap g player) = Some (CPlayerController pc) →
     Entity.getComponent "StreetArt" (Game.heap g streetart) = Some (CStreetArt art) →
     Entity.getComponent "Transform" (Game.heap g streetart) = Some (CTransform tr) →
     Actions.spray (PlayerController.actions pc) = true →
     StreetArt.painted art = false →
     0 < PlayerController.sprayPower pc →
     ∃ g' pc' art',
       CollisionSystem.handlePlayerStreetArtCollision g player streetart = Some g'
       ∧ Entity.playerController (Game.heap g' player) = Some pc'
       ∧ Entity.streetArt (Game.heap g' streetart) = Some art'
       ∧ StreetArt.paintProgress art'
           = Double.add (StreetArt.paintProgress art) (Double.mul 50 (Game.deltaTime g))
       ∧ (0 <= Game.deltaTime g → Double.representable (StreetArt.paintProgress art) →
          StreetArt.paintProgress art <= StreetArt.paintProgress art')
       ∧ PlayerController.sprayPower pc'
           = Qmax 0 (Double.sub (PlayerController.sprayPower pc)
                  (Double.div (Double.mul 50 (Game.deltaTime g)) 2))
       ∧ 0 <= PlayerController.sprayPower pc'
       ∧ (StreetArt.painted art' = true ↔
          StreetArt.requiredPaint art <= Double.add (StreetArt.paintProgress art) (Double.mul 50 (Game.deltaTime g)))
       ∧ Game.score g'
           = (if StreetArt.painted art'
              then Double.add (Game.score g)
                  (inject_Z (Qfloor (Double.mul 100 (Game.gameSpeed g))))
              else Game.score g)
       ∧ Stats.wallsPainted (Game.stats g')
           = (if StreetArt.painted art'
              then Double.add (Stats.wallsPainted (Game.stats g)) 1
              else Stats.wallsPainted (Game.stats g))
       ∧ (StreetArt.painted art' = true →
          ∀ player', CollisionSystem.handlePlayerStreetArtCollision g' player' streetart
                     = Some g'))
  ∧ (∀ art, Entity.streetArt (Game.heap g streetart) = Some art →
            StreetArt.painted art = true →
            CollisionSystem.handlePlayerStreetArtCollision g player streetart = Some g)
  ∧ (Entity.playerController (Game.heap g player) = None →
     CollisionSystem.handlePlayerStreetArtCollision g player streetart = Some g)
  ∧ (∀ pc, Entity.playerController (Game.heap g player) = Some pc →
           Actions.spray (PlayerController.actions pc) = false →
           CollisionSystem.handlePlayerStreetArtCollision g player streetart = Some g)
  ∧ (∀ pc art, Entity.playerController (Game.heap g player) = Some pc →
               Entity.streetArt (Game.heap g streetart) = Some art →
               PlayerController.sprayPower pc <= 0 →
               CollisionSystem.handlePlayerStreetArtCollision g player streetart = Some g).
Proof.
  split; [| split; [| split; [| split]]].
  - intros pc art tr Hpc Hart Htr Hspray Hunpainted Hpower.
    destruct (spraying_paints g player streetart pc art tr Hpc Hart Htr Hspray
                Hunpainted Hpower)
      as (g' & pc' & art' & Hrun & Hpc' & Hart' & Hprogress & Hdrain & Hpainted
          & Hscore & Hwalls).
    exists g', pc', art'. do 4 (split; [done |]).
    split.
    { intros Hdt Hrep. rewrite Hprogress. unfold Double.add.
      apply round_above; [done |].
      pose proof (proj1 (round_sign (50 * Game.deltaTime g)) ltac:(lra)) as Hpos.
      unfold Double.mul. lra. }
    split; [done |].
    split; [rewrite Hdrain; apply Q.le_max_l |].
    split; [rewrite Hpainted; apply geb_ge |].
    repeat (split; [done |]).
    intros Hp player'. by apply (painted_noop g' player' streetart art').
  - intros art Hart Hp. by apply (painted_noop g player streetart art).
  - intros Hnone. apply spraying_off_noop. by rewrite Hnone.
  - intros pc Hpc Hflag. apply spraying_off_noop. rewrite Hpc. simpl. by rewrite Hflag.
  - intros pc art Hpc Hart Hpower. apply spraying_off_noop. rewrite Hpc, Hart. simpl.
    destruct (Actions.spray (PlayerController.actions pc)); [| done]. simpl.
    apply gtb_le in Hpower. rewrite Hpower. by rewrite andb_false_r.
Qed.

Lemma C5_street_art_painting_witness :
  let g := Scenario.game Scenario.heap_spraying 1 (1 # 16) in
  ∃ g' pc' art',
    CollisionSystem.handlePlayerStreetArtCollision g Scenario.player Scenario.wall = Some g'
    ∧ Entity.playerController (Game.heap g' Scenario.player) = Some pc'
    ∧ Entity.streetArt (Game.heap g' Scenario.wall) = Some art'
    ∧ StreetArt.paintProgress art' = Double.add 98 (Double.mul 50 (1 # 16))
    ∧ PlayerController.sprayPower pc'
        = Qmax 0 (Double.sub 100 (Double.div (Double.mul 50 (1 # 16)) 2))
    ∧ StreetArt.painted art' = true
    ∧ CollisionSystem.handlePlayerStreetArtCollision g' Scenario.player Scenario.wall = Some g'.
Proof.
  intros g.
  destruct (proj1 (C5_street_art_painting g Scenario.player Scenario.wall)
              (PlayerController.set_actions (Actions.mk false false true)
                 PlayerController.new)
              (StreetArt.set_paintProgress 98 StreetArt.new)
              (Transform.new 80 (300 - 250) 120 250))
    as (g' & pc' & art' & Hrun & Hpc' & Hart' & Hprogress & _ & Hdrain & _ & Hpainted
        & _ & _ & Hagain);
    [by vm_compute | by vm_compute | by vm_compute | reflexivity | reflexivity
    | by vm_compute |].
  assert (Hp : StreetArt.painted art' = true) by (apply Hpainted; by vm_compute).
  exists g', pc', art'.
  split; [exact Hrun |]. split; [exact Hpc' |]. split; [exact Hart' |].
  split; [exact Hprogress |]. split; [exact Hdrain |]. split; [exact Hp |].
  by apply Hagain.
Defined.

(** ** Leaving the ground

    The vertical axis of the canvas points down: gravity adds to [vy],
    the ground line lies below the entity at [canvasHeight - 150] and is
    compared with the bottom edge [y + height], and a jump sets [vy] to
    minus the jump force. A positive [vy] is a fall. *)





(** ** The guard behaviour *)

#[local] Arguments Qabs : simpl never.
#[local] Arguments Qminus : simpl never.
#[local] Arguments Qmult : simpl never.




(** * Further properties of the engine *)

(** ** Entities: components and tags *)

(** X1: a component is found under its class name after [addComponent],
    the components of the other classes are untouched, a second
    component of the same class replaces the first, and
    [removeComponent] makes [hasComponent] false for that class alone. *)
Theorem X1_component_round_trip (e : Entity.t) (c : Component) :
  Entity.getComponent (constructor_name c) (Entity.addComponent c e) = Some c
  ∧ Entity.hasComponent (constructor_name c) (Entity.addComponent c e) = true
  ∧ (∀ k, k ≠ constructor_name c →
          Entity.getComponent k (Entity.addComponent c e) = Entity.getComponent k e)
  ∧ (∀ c', constructor_name c' = constructor_name c →
           Entity.addComponent c' (Entity.addComponent c e) = Entity.addComponent c' e)
  ∧ (∀ k, Entity.hasComponent k (Entity.removeComponent k e) = false
          ∧ ∀ k', k' ≠ k →
                  Entity.getComponent k' (Entity.removeComponent k e)
                  = Entity.getComponent k' e).
Proof.
  unfold Entity.getComponent, Entity.hasComponent. simpl.
  split; [apply lookup_insert_eq |].
  split; [apply bool_decide_eq_true; rewrite lookup_insert_eq; by eexists |].
  split; [intros k Hk; by rewrite lookup_insert_ne |].
  split.
  - intros c' Hname. unfold Entity.addComponent. simpl. rewrite Hname.
    by rewrite insert_insert_eq.
  - intros k. split.
    + apply bool_decide_eq_false. rewrite lookup_delete_eq. by intros [? ?].
    + intros k' Hk. by rewrite lookup_delete_ne.
Qed.

Lemma NoDup_snoc_fresh (l : list string) (x : string) :
  NoDup l → x ∉ l → NoDup (l ++ [x]).
Proof.
  intros Hnd Hx. apply NoDup_app. split; [done |]. split; [| apply NoDup_singleton].
  intros y Hy Hy'. apply list_elem_of_singleton in Hy'. by subst.
Qed.

(** X2: the tags of an entity behave as a set: [addTag] makes [hasTag]
    true and is idempotent, [removeTag] makes it false, neither touches
    another tag, and a duplicate-free tag list stays duplicate-free. *)
Theorem X2_tags_are_a_set (e : Entity.t) (tag : string) :
  Entity.hasTag tag (Entity.addTag tag e) = true
  ∧ Entity.addTag tag (Entity.addTag tag e) = Entity.addTag tag e
  ∧ Entity.hasTag tag (Entity.removeTag tag e) = false
  ∧ (∀ other, other ≠ tag →
              Entity.hasTag other (Entity.addTag tag e) = Entity.hasTag other e
              ∧ Entity.hasTag other (Entity.removeTag tag e) = Entity.hasTag other e)
  ∧ (NoDup (Entity.tags e) →
     NoDup (Entity.tags (Entity.addTag tag e))
     ∧ NoDup (Entity.tags (Entity.removeTag tag e))).
Proof.
  assert (Hin : tag ∈ Entity.tags (Entity.addTag tag e)).
  { simpl. case_bool_decide; [done |]. apply elem_of_app. right.
    by apply list_elem_of_singleton. }
  split; [by apply bool_decide_eq_true |].
  split.
  { unfold Entity.addTag at 1. simpl in Hin.
    rewrite (bool_decide_eq_true_2 _ Hin). by destruct e. }
  split.
  { apply bool_decide_eq_false. simpl. rewrite list_elem_of_filter. tauto. }
  split.
  - intros other Hne. unfold Entity.hasTag. simpl. split.
    + apply bool_decide_ext. case_bool_decide; [done |].
      rewrite elem_of_app, list_elem_of_singleton. tauto.
    + apply bool_decide_ext. rewrite list_elem_of_filter. tauto.
  - intros Hnd. simpl. split.
    + case_bool_decide; [done |]. by apply NoDup_snoc_fresh.
    + by apply NoDup_filter.
Qed.

(** ** The manager: lookups and queries after a flush *)

Lemma add_store_last (h : Heap) (acc : list (string * ref) * gmap string (list ref)) (l : list ref) (e : ref) :
  e ∈ l →
  (∀ e', e' ∈ l → Entity.id (h e') = Entity.id (h e) → e' = e) →
  (Entity.id (h e), e) ∈ (foldl (EntityManager.add_one h) acc l).1.
Proof.
  intros He Huniq.
  assert (Hkeep : ∀ l' acc',
            (∀ e', e' ∈ l' → Entity.id (h e') = Entity.id (h e) → e' = e) →
            (Entity.id (h e), e) ∈ acc'.1 →
            (Entity.id (h e), e) ∈ (foldl (EntityManager.add_one h) acc' l').1).
  { induction l' as [| r l' IH]; intros acc' Hu Hin; simpl; [done |].
    apply IH; [intros e' He'; apply Hu; apply elem_of_cons; by right |].
    simpl. apply JsMap_set_keeps; [done |].
    intros Hid. apply Hu; [apply elem_of_cons; by left | done]. }
  revert acc He Huniq. induction l as [| r l IH]; intros acc He Huniq; simpl.
  - by apply elem_of_nil in He.
  - destruct (decide (r = e)) as [-> | Hne].
    + apply Hkeep; [intros e' He'; apply Huniq; apply elem_of_cons; by right |].
      simpl. apply JsMap_set_elem.
    + apply elem_of_cons in He as [-> | He]; [done |].
      apply IH; [done |]. intros e' He'. apply Huniq. apply elem_of_cons. by right.
Qed.

Lemma occurrences_pos (x : ref) (l : list ref) : x ∈ l ↔ (0 < occurrences x l)%nat.
Proof.
  unfold occurrences. split.
  - intros Hin. assert (x ∈ filter (λ y, y = x) l) as Hf by (by apply list_elem_of_filter).
    destruct (filter (λ y, y = x) l); [by apply elem_of_nil in Hf | simpl; lia].
  - intros Hpos. destruct (filter (λ y, y = x) l) as [| y l'] eqn:Hf; [simpl in Hpos; lia |].
    assert (y ∈ filter (λ y, y = x) l) as Hy by (rewrite Hf; apply elem_of_cons; by left).
    apply list_elem_of_filter in Hy as [-> Hy]. done.
Qed.

(** X3: an entity staged once under its id, and not removed by the same
    flush, is afterwards found by [getEntity] under its id, sits in the
    bucket of each of its tags, and is returned by every query whose
    test it passes. *)
Theorem X3_flush_then_lookup (h : Heap) (m : EntityManager.t) (e : ref) :
  EntityManager.store_ok h (EntityManager.entities m) →
  e ∈ EntityManager.entitiesToAdd m →
  (∀ e', e' ∈ EntityManager.entitiesToAdd m →
         Entity.id (h e') = Entity.id (h e) → e' = e) →
  (∀ x, x ∈ EntityManager.removals h m → Entity.id (h x) ≠ Entity.id (h e)) →
  EntityManager.getEntity (Entity.id (h e)) (EntityManager.update h m) = Some e
  ∧ (∀ tag, tag ∈ Entity.tags (h e) →
            e ∈ EntityManager.getEntitiesByTag tag (EntityManager.update h m))
  ∧ (∀ componentClasses,
       EntityManager.matches h componentClasses e = true →
       e ∈ EntityManager.getEntitiesWith h (EntityManager.update h m) componentClasses).
Proof.
  intros Hok He Huniq Hkept.
  assert (Hstored : (Entity.id (h e), e)
                    ∈ EntityManager.entities (EntityManager.update h m)).
  { apply update_store_elem. split; [by apply add_store_last |].
    intros x Hx Heq. by apply (Hkept x Hx). }
  assert (Hnot : e ∉ EntityManager.removals h m).
  { intros Hin. by apply (Hkept e Hin). }
  split.
  { unfold EntityManager.getEntity. apply JsMap_get_elem; [| done].
    by apply (update_store_ok h m Hok). }
  split.
  - intros tag Htag. apply occurrences_pos.
    unfold EntityManager.getEntitiesByTag, EntityManager.update. simpl.
    rewrite remove_index_other by done.
    apply occurrences_pos. by apply add_index_elem.
  - intros cs Hmatch. apply getEntitiesWith_elem. split; [| done].
    unfold JsMap.values. apply list_elem_of_fmap. by exists (Entity.id (h e), e).
Qed.

Lemma X3_flush_then_lookup_witness :
  EntityManager.getEntity "_player" (EntityManager.update Scenario.heap Scenario.staged)
    = Some Scenario.player
  ∧ Scenario.player ∈ EntityManager.getEntitiesByTag "player"
      (EntityManager.update Scenario.heap Scenario.staged).
Proof.
  destruct (X3_flush_then_lookup Scenario.heap Scenario.staged Scenario.player)
    as (Hget & Htag & _).
  - apply store_ok_new.
  - apply (bool_decide_unpack _). by vm_compute.
  - intros e' He' Hid. vm_compute in He'.
    apply elem_of_cons in He' as [-> | He']; [done |].
    apply list_elem_of_singleton in He' as ->. by vm_compute in Hid.
  - intros x Hx. vm_compute in Hx. by apply elem_of_nil in Hx.
  - split; [exact Hget |]. apply Htag. apply (bool_decide_unpack _). by vm_compute.
Defined.

Lemma marked_none (h : Heap) (store : list (string * ref)) :
  (∀ r, r ∈ JsMap.values store → Entity.destroy (h r) = false) →
  EntityManager.marked h store = [].
Proof.
  unfold EntityManager.marked. induction (JsMap.values store) as [| r l IH];
    intros Hclean; simpl; [done |].
  rewrite (Hclean r) by (apply elem_of_cons; by left).
  apply IH. intros r' Hr'. apply Hclean. apply elem_of_cons. by right.
Qed.

(** X4: with the entities unchanged, a second flush changes nothing:
    [update] leaves a manager that [update] maps to itself. *)
Theorem X4_flush_idempotent (h : Heap) (m : EntityManager.t) :
  EntityManager.store_ok h (EntityManager.entities m) →
  EntityManager.update h (EntityManager.update h m) = EntityManager.update h m.
Proof.
  intros Hok.
  assert (Hclean : EntityManager.marked h (EntityManager.entities (EntityManager.update h m)) = []).
  { apply marked_none. intros r Hr. unfold JsMap.values in Hr.
    apply list_elem_of_fmap in Hr as ([k r'] & -> & Hin).
    by apply (update_no_destroyed h m k r'). }
  set (m' := EntityManager.update h m) in *.
  assert (Hadded : EntityManager.added h m'
                   = (EntityManager.entities m', EntityManager.entitiesByTag m'))
    by reflexivity.
  assert (Hremovals : EntityManager.removals h m' = []).
  { unfold EntityManager.removals.
    change ((EntityManager.added h m').1) with (EntityManager.entities m').
    by rewrite Hclean. }
  unfold EntityManager.update at 1. rewrite Hadded, Hremovals. reflexivity.
Qed.

Lemma X4_flush_idempotent_witness :
  EntityManager.update Scenario.heap_coin_destroyed
    (EntityManager.update Scenario.heap_coin_destroyed Scenario.staged)
  = EntityManager.update Scenario.heap_coin_destroyed Scenario.staged.
Proof.
  apply (X4_flush_idempotent Scenario.heap_coin_destroyed Scenario.staged).
  apply store_ok_new.
Defined.

Lemma filter_bool_sublist {A : Type} (P : A → bool) (l : list A) :
  sublist (List.filter P l) l.
Proof.
  induction l as [| x l IH]; simpl; [done |].
  destruct (P x); [by apply sublist_skip | by apply sublist_cons].
Qed.

Lemma filter_bool_sublist_imp {A : Type} (P Q : A → bool) (l : list A) :
  (∀ x, P x = true → Q x = true) →
  sublist (List.filter P l) (List.filter Q l).
Proof.
  intros Himp. induction l as [| x l IH]; simpl; [done |].
  destruct (P x) eqn:HP.
  - rewrite (Himp x HP). by apply sublist_skip.
  - destruct (Q x); [by apply sublist_cons | done].
Qed.

Lemma store_values_NoDup (h : Heap) (store : list (string * ref)) :
  EntityManager.store_ok h store → NoDup (JsMap.values store).
Proof.
  unfold EntityManager.store_ok, JsMap.values, JsMap.keys.
  induction store as [| [k r] store IH]; simpl; intros [Hnd Hid]; [apply NoDup_nil_2 |].
  apply NoDup_cons in Hnd as [Hfresh Hnd]. apply NoDup_cons. split.
  - intros Hin. apply list_elem_of_fmap in Hin as ([k' r'] & Heq & Hin). simpl in Heq.
    subst r'. apply Hfresh. apply list_elem_of_fmap. exists (k', r). split; [| done].
    simpl. rewrite <- (Hid k r) by (apply elem_of_cons; by left).
    apply Hid. apply elem_of_cons. by right.
  - apply IH. split; [done |]. intros k' r' Hin. apply Hid. apply elem_of_cons. by right.
Qed.

(** X5: a query returns exactly the stored entities that are active,
    not marked [destroy] and hold a component of every requested class,
    in the insertion order of the store, each one once; asking for more
    component classes returns a sub-sequence of the answer to the
    shorter request, and asking for none returns every active entity
    that is not marked [destroy]. *)
Theorem X5_query_is_ordered_selection (h : Heap) (m : EntityManager.t) (componentClasses more : list string) :
  sublist (EntityManager.getEntitiesWith h m componentClasses)
          (JsMap.values (EntityManager.entities m))
  ∧ sublist (EntityManager.getEntitiesWith h m (componentClasses ++ more))
            (EntityManager.getEntitiesWith h m componentClasses)
  ∧ (EntityManager.store_ok h (EntityManager.entities m) →
     NoDup (EntityManager.getEntitiesWith h m componentClasses))
  ∧ (∀ r, r ∈ EntityManager.getEntitiesWith h m componentClasses ↔
          r ∈ JsMap.values (EntityManager.entities m)
          ∧ Entity.active (h r) = true ∧ Entity.destroy (h r) = false
          ∧ ∀ c, c ∈ componentClasses → is_Some (Entity.getComponent c (h r)))
  ∧ (∀ r, r ∈ EntityManager.getEntitiesWith h m [] ↔
          r ∈ JsMap.values (EntityManager.entities m)
          ∧ Entity.active (h r) = true ∧ Entity.destroy (h r) = false).
Proof.
  split; [apply filter_bool_sublist |].
  split.
  { apply filter_bool_sublist_imp. intros r. rewrite !matches_spec.
    intros (Ha & Hd & Hall). split; [done |]. split; [done |].
    intros c Hc. apply Hall. apply elem_of_app. by left. }
  split.
  { intros Hok. eapply sublist_NoDup; [| apply filter_bool_sublist].
    by apply (store_values_NoDup h). }
  split; [intros r; by rewrite getEntitiesWith_elem, matches_spec |].
  intros r. rewrite getEntitiesWith_elem, matches_spec. split.
  - intros (Hin & Ha & Hd & _). done.
  - intros (Hin & Ha & Hd). split; [done |]. split; [done |]. split; [done |].
    intros c Hc. by apply elem_of_nil in Hc.
Qed.

(** ** Collectibles and the score *)

Lemma collectible_inv (e : Entity.t) (cc : Collectible.t) :
  Entity.collectible e = Some cc →
  Entity.getComponent "Collectible" e = Some (CCollectible cc).
Proof.
  unfold Entity.collectible.
  destruct (Entity.getComponent "Collectible" e) as [[] |]; try done. by intros [= ->].
Qed.

Lemma collected_noop (g : Game.t) (player collectible : ref) (cc : Collectible.t) :
  Entity.getComponent "Collectible" (Game.heap g collectible) = Some (CCollectible cc) →
  Collectible.collected cc = true →
  CollisionSystem.handlePlayerCollectibleCollision g player collectible = Some g.
Proof.
  intros Hcc Hdone. unfold CollisionSystem.handlePlayerCollectibleCollision.
  rewrite (collectible_get _ _ Hcc). simpl. by rewrite Hdone.
Qed.

(** X6: the collectible handler is idempotent: whenever it returns, a
    second call on the resulting game, for the same pair, returns that
    game unchanged; no second score, effect or sound. *)
Theorem X6_pickup_idempotent (g g' : Game.t) (player collectible : ref) :
  CollisionSystem.handlePlayerCollectibleCollision g player collectible = Some g' →
  CollisionSystem.handlePlayerCollectibleCollision g' player collectible = Some g'.
Proof.
  intros Hrun.
  destruct (Entity.collectible (Game.heap g collectible)) as [cc |] eqn:Hcc;
    [| unfold CollisionSystem.handlePlayerCollectibleCollision in Hrun;
       by rewrite Hcc in Hrun].
  pose proof (collectible_inv _ _ Hcc) as Hget.
  destruct (Collectible.collected cc) eqn:Hdone.
  { rewrite (collected_noop g player collectible cc Hget Hdone) in Hrun.
    injection Hrun as <-. by apply (collected_noop g player collectible cc). }
  unfold CollisionSystem.handlePlayerCollectibleCollision in Hrun.
  rewrite Hcc in Hrun. simpl in Hrun. rewrite Hdone in Hrun.
  destruct (Entity.transform _) as [pt |] eqn:Hpt in Hrun; [| done].
  simpl in Hrun. injection Hrun as <-.
  apply (collected_noop _ player collectible (Collectible.set_collected true cc));
    [| done].
  simpl. rewrite getComponent_set_destroy.
  destruct (String.eqb (Collectible.type cc) "spray_can").
  - destruct (Entity.playerController _) as [pc |]; simpl.
    + rewrite getComponent_write_ne by done.
      apply (getComponent_write_eq _ collectible (CCollectible _)).
    + apply (getComponent_write_eq _ collectible (CCollectible _)).
  - destruct (String.eqb (Collectible.type cc) "power_up"); simpl.
    + destruct (Entity.health _) as [hp |]; simpl.
      * rewrite getComponent_write_ne by done.
        apply (getComponent_write_eq _ collectible (CCollectible _)).
      * apply (getComponent_write_eq _ collectible (CCollectible _)).
    + apply (getComponent_write_eq _ collectible (CCollectible _)).
Qed.

Lemma X6_pickup_idempotent_witness :
  let g := Scenario.game Scenario.heap 1 (1 # 60) in
  let result :=
    CollisionSystem.handlePlayerCollectibleCollision g Scenario.player Scenario.coin in
  match result with Some _ => true | None => false end = true
  ∧ (result ≫= λ g', CollisionSystem.handlePlayerCollectibleCollision g'
                       Scenario.player Scenario.coin) = result.
Proof.
  intros g result. split; [by vm_compute |].
  destruct result as [g' |] eqn:Hrun; [| done]. simpl.
  by apply (X6_pickup_idempotent g g' Scenario.player Scenario.coin).
Defined.

Lemma health_get (e : Entity.t) (hp : Health.t) :
  Entity.getComponent "Health" e = Some (CHealth hp) → Entity.health e = Some hp.
Proof. unfold Entity.health. by intros ->. Qed.

(** X7: picking up a power-up that is not yet collected makes a player
    that has Health invulnerable for 3 seconds without touching its
    health points, sets the [collected] latch of the collectible and
    marks its entity [destroy], leaves the player's spray power as it
    was, and raises the score by the value times the game speed, rounded
    to a double and then down; the UI is told the new score, the
    power-up sound is played and the collect effect is placed at the
    centre of the player. *)
Theorem X7_power_up_grants_invulnerability (g : Game.t) (player collectible : ref) (cc : Collectible.t) (hp : Health.t) (pt : Transform.t) :
  Entity.getComponent "Collectible" (Game.heap g collectible) = Some (CCollectible cc) →
  Collectible.collected cc = false →
  Collectible.type cc = "power_up" →
  Entity.getComponent "Health" (Game.heap g player) = Some (CHealth hp) →
  Entity.getComponent "Transform" (Game.heap g player) = Some (CTransform pt) →
  ∃ g' hp',
    CollisionSystem.handlePlayerCollectibleCollision g player collectible = Some g'
    ∧ Entity.health (Game.heap g' player) = Some hp'
    ∧ Health.invulnerable hp' = true
    ∧ Health.invulnerabilityTime hp' = 3
    ∧ Health.current hp' = Health.current hp
    ∧ Health.max hp' = Health.max hp
    ∧ Entity.collectible (Game.heap g' collectible)
        = Some (Collectible.set_collected true cc)
    ∧ Entity.destroy (Game.heap g' collectible) = true
    ∧ Entity.getComponent "PlayerController" (Game.heap g' player)
        = Entity.getComponent "PlayerController" (Game.heap g player)
    ∧ Game.score g'
        = Double.add (Game.score g)
            (inject_Z (Qfloor (Double.mul (Collectible.value cc) (Game.gameSpeed g))))
    ∧ Game.trace g'
        = Game.trace g ++
          [UpdateScore (Game.score g');
           PlaySound "powerup";
           CollectEffect (Double.add (Transform.x pt) (Double.div (Transform.width pt) 2))
                         (Double.add (Transform.y pt) (Double.div (Transform.height pt) 2))
                         "power_up"].
Proof.
  intros Hcc Hnew Htype Hhp Hpt.
  unfold CollisionSystem.handlePlayerCollectibleCollision.
  rewrite (collectible_get _ _ Hcc). simpl. rewrite Hnew, Htype. simpl.
  unfold Entity.transform at 1.
  rewrite getComponent_write_ne, Hpt by done. simpl.
  unfold Entity.health at 1 2 3.
  rewrite !getComponent_write_ne, Hhp by done. simpl.
  eexists _, _. split; [reflexivity |]. simpl.
  split.
  { apply health_get. rewrite getComponent_set_destroy.
    apply (getComponent_write_eq _ player (CHealth _)). }
  do 4 (split; [reflexivity |]).
  split.
  { apply collectible_get. rewrite getComponent_set_destroy.
    rewrite getComponent_write_ne by done.
    apply (getComponent_write_eq _ collectible (CCollectible _)). }
  split; [unfold heap_set at 1; by rewrite decide_True |].
  split.
  { rewrite getComponent_set_destroy. by rewrite !getComponent_write_ne. }
  split; [reflexivity |].
  by rewrite <- !app_assoc.
Qed.

(** X8: for non-negative points and game speed, [addScore] never lowers
    a score that is a double: it adds the whole number of points that
    the product of points and speed, rounded to a double, contains, and
    tells the UI the new score. *)
Theorem X8_score_never_decreases (g : Game.t) (points : Q) :
  0 <= points → 0 <= Game.gameSpeed g → Double.representable (Game.score g) →
  ∃ n : Z, (0 <= n)%Z
    ∧ Game.score (Game.addScore points g) = Double.add (Game.score g) (inject_Z n)
    ∧ inject_Z n <= Double.mul points (Game.gameSpeed g)
    ∧ Double.mul points (Game.gameSpeed g) < inject_Z n + 1
    ∧ Game.score g <= Game.score (Game.addScore points g)
    ∧ Game.trace (Game.addScore points g)
        = Game.trace g ++ [UpdateScore (Game.score (Game.addScore points g))].
Proof.
  intros Hpoints Hspeed Hrep.
  exists (Qfloor (Double.mul points (Game.gameSpeed g))).
  assert (Hprod : 0 <= Double.mul points (Game.gameSpeed g)).
  { unfold Double.mul. apply round_sign. nra. }
  assert (Hn : (0 <= Qfloor (Double.mul points (Game.gameSpeed g)))%Z).
  { change 0%Z with (Qfloor 0). by apply Qfloor_resp_le. }
  split; [done |]. split; [reflexivity |].
  split; [apply Qfloor_le |].
  split.
  { pose proof (Qlt_floor (Double.mul points (Game.gameSpeed g))) as Hlt.
    rewrite inject_Z_plus in Hlt. exact Hlt. }
  split; [| reflexivity].
  cbn [Game.score Game.addScore Game.set_score Game.emit].
  assert (0 <= inject_Z (Qfloor (Double.mul points (Game.gameSpeed g)))).
  { change 0 with (inject_Z 0). by rewrite <- Zle_Qle. }
  unfold Double.add. apply round_above; [done | lra].
Qed.

Lemma X7_power_up_grants_invulnerability_witness :
  let h := heap_set Scenario.heap Scenario.coin
             (WorldGenerator.spawnCollectible "_power" 0 130 "power_up") in
  let g := Scenario.game h 1 (1 # 64) in
  ∃ g' hp',
    CollisionSystem.handlePlayerCollectibleCollision g Scenario.player Scenario.coin = Some g'
    ∧ Entity.health (Game.heap g' Scenario.player) = Some hp'
    ∧ Health.invulnerable hp' = true
    ∧ Health.invulnerabilityTime hp' = 3
    ∧ Health.current hp' = 3.
Proof.
  intros h g.
  destruct (X7_power_up_grants_invulnerability g Scenario.player Scenario.coin
              (Collectible.new "power_up" 50 0) (Health.new 3)
              (Transform.new 100 350 32 32))
    as (g' & hp' & Hrun & Hhp & Hinv & Htime & Hcur & _);
    [by vm_compute | reflexivity | reflexivity | by vm_compute | by vm_compute |].
  exists g', hp'.
  split; [exact Hrun |]. split; [exact Hhp |]. split; [exact Hinv |].
  split; [exact Htime |]. rewrite Hcur. reflexivity.
Defined.

Lemma X8_score_never_decreases_witness :
  Game.score (Scenario.game Scenario.heap (3 # 2) (1 # 64))
  <= Game.score (Game.addScore 25 (Scenario.game Scenario.heap (3 # 2) (1 # 64))).
Proof.
  destruct (X8_score_never_decreases (Scenario.game Scenario.heap (3 # 2) (1 # 64)) 25)
    as (n & _ & _ & _ & _ & Hle & _); [by vm_compute | by vm_compute | by vm_compute |].
  exact Hle.
Defined.

(** ** The physics step *)

Section PhysicsFacts.
Variable Math_pow : Q → Q → Q.




End PhysicsFacts.



(** ** Hitting an obstacle *)



(** X12: a player without Health, an invulnerable player, or an obstacle
    whose [hit] latch is set: the obstacle handler changes nothing and
    calls nobody. *)
Theorem X12_obstacle_shielded (g : Game.t) (player obstacle : ref) :
  (Entity.health (Game.heap g player) = None →
   CollisionSystem.handlePlayerObstacleCollision g player obstacle = Some (g, []))
  ∧ (∀ hp, Entity.health (Game.heap g player) = Some hp →
           Health.invulnerable hp = true →
           CollisionSystem.handlePlayerObstacleCollision g player obstacle = Some (g, []))
  ∧ (∀ hp oc, Entity.health (Game.heap g player) = Some hp →
              Entity.obstacle (Game.heap g obstacle) = Some oc →
              Obstacle.hit oc = true →
              CollisionSystem.handlePlayerObstacleCollision g player obstacle = Some (g, [])).
Proof.
  unfold CollisionSystem.handlePlayerObstacleCollision. split; [| split].
  - by intros ->.
  - intros hp -> Hinv. by rewrite Hinv.
  - intros hp oc -> -> Hhit. simpl. rewrite Hhit. by destruct (Health.invulnerable hp).
Qed.



(** ** Animations *)

(** X14: the animation step always finds the frame it writes to the
    sprite; it keeps the frame list, never leaves the current index
    outside the list once it has advanced, and reports completion only
    by stopping a non-looping animation on its last frame; a stopped
    animation is left untouched, so the completion is reported once. *)
Theorem X14_animation_step (deltaTime : Q) (sprite : Sprite.t) (animation : Animation.t) :
  ∃ sprite' animation' completed,
    AnimationSystem.step deltaTime sprite animation = Some (sprite', animation', completed)
    ∧ Animation.frames animation' = Animation.frames animation
    ∧ ((Animation.currentFrame animation < length (Animation.frames animation))%nat →
       (Animation.currentFrame animation' < length (Animation.frames animation))%nat)
    ∧ (Animation.currentFrame animation' ≠ Animation.currentFrame animation →
       Animation.frames animation !! Animation.currentFrame animation'
       = Some (Sprite.frame sprite'))
    ∧ (completed = true →
       Animation.loop animation = false ∧ Animation.playing animation' = false
       ∧ Animation.currentFrame animation' = (length (Animation.frames animation) - 1)%nat)
    ∧ (Animation.playing animation = false →
       sprite' = sprite ∧ animation' = animation ∧ completed = false).
Proof.
  unfold AnimationSystem.step.
  destruct (Animation.playing animation) eqn:Hplaying; simpl;
    [| eexists _, _, _; split; [reflexivity |]; repeat split; done].
  destruct (0 <? length (Animation.frames animation))%nat eqn:Hnonempty;
    [| eexists _, _, _; split; [reflexivity |]; repeat split; done].
  apply Nat.ltb_lt in Hnonempty.
  destruct (Num.geb _ _) eqn:Hdue;
    [| eexists _, _, _; split; [reflexivity |]; repeat split; done].
  destruct (length (Animation.frames animation) <=? S (Animation.currentFrame animation))%nat
    eqn:Hwrap; simpl.
  - apply Nat.leb_le in Hwrap. destruct (Animation.loop animation) eqn:Hloop; simpl.
    + destruct (Animation.frames animation !! 0%nat) as [frame |] eqn:Hframe.
      * eexists _, _, _. split; [reflexivity |]. simpl.
        repeat split; try done; lia.
      * apply lookup_ge_None in Hframe. lia.
    + destruct (Animation.frames animation
                  !! (length (Animation.frames animation) - 1)%nat) as [frame |] eqn:Hframe.
      * eexists _, _, _. split; [reflexivity |]. simpl.
        repeat split; try done; lia.
      * apply lookup_ge_None in Hframe. lia.
  - apply Nat.leb_gt in Hwrap.
    destruct (Animation.frames animation !! S (Animation.currentFrame animation))
      as [frame |] eqn:Hframe.
    + eexists _, _, _. split; [reflexivity |]. simpl. repeat split; done.
    + apply lookup_ge_None in Hframe. lia.
Qed.

(** ** Particles *)




(** ** The clock *)

(** X17: the frame delta never exceeds the double nearest to 0.1 s;
    when time does not run backwards, the game time and the distance,
    being non-negative doubles, do not decrease, the distance grows by
    at most ten times the current speed in one frame, and the new game
    speed lies between 1 and 2: it is 2 from the hundredth second on and
    below 2 up to the ninety-ninth. Every operation is the one on
    doubles. *)
Theorem X17_clock_bounds (currentTime : Q) (c : GameLoop.Clock) :
  GameLoop.deltaTime (GameLoop.tick currentTime c) <= Double.literal (1 # 10)
  ∧ (GameLoop.lastTime c <= currentTime → 0 <= GameLoop.gameTime c →
     0 <= GameLoop.gameSpeed c →
     Double.representable (GameLoop.gameTime c) →
     Double.representable (GameLoop.distance c) →
     0 <= GameLoop.deltaTime (GameLoop.tick currentTime c)
     ∧ GameLoop.gameTime c <= GameLoop.gameTime (GameLoop.tick currentTime c)
     ∧ GameLoop.distance c <= GameLoop.distance (GameLoop.tick currentTime c)
     ∧ GameLoop.distance (GameLoop.tick currentTime c)
         <= Double.add (GameLoop.distance c) (Double.mul 10 (GameLoop.gameSpeed c))
     ∧ 1 <= GameLoop.gameSpeed (GameLoop.tick currentTime c) <= 2
     ∧ (100 <= GameLoop.gameTime (GameLoop.tick currentTime c) →
        GameLoop.gameSpeed (GameLoop.tick currentTime c) == 2)
     ∧ (GameLoop.gameTime (GameLoop.tick currentTime c) <= 99 →
        GameLoop.gameSpeed (GameLoop.tick currentTime c) < 2))
  ∧ GameLoop.lastTime (GameLoop.tick currentTime c) = currentTime
  ∧ GameLoop.survivalTime (GameLoop.tick currentTime c)
      = GameLoop.gameTime (GameLoop.tick currentTime c).
Proof.
  unfold GameLoop.tick. cbn [GameLoop.deltaTime GameLoop.gameTime GameLoop.distance
                              GameLoop.gameSpeed GameLoop.lastTime GameLoop.survivalTime].
  set (dt := Qmin (Double.div (Double.sub currentTime (GameLoop.lastTime c)) 1000)
                  (Double.literal (1 # 10))).
  set (t := Double.add (GameLoop.gameTime c) dt).
  assert (Hcap : dt <= Double.literal (1 # 10)) by apply Q.le_min_r.
  split; [done |]. split; [| done].
  intros Htime Hgame Hspeed Hrept Hrepd.
  assert (Htenth : 0 <= Double.literal (1 # 10)) by (by vm_compute).
  assert (Hcent : 1 # 100 <= Double.literal (1 # 100)) by (by vm_compute).
  assert (Hone : Double.representable 1) by (by vm_compute).
  assert (Htwo : Double.representable 2) by (by vm_compute).
  assert (Hdt : 0 <= dt).
  { subst dt. apply Q.min_glb; [| done].
    unfold Double.div, Double.sub. apply round_sign.
    pose proof (proj1 (round_sign (currentTime - GameLoop.lastTime c)) ltac:(lra)).
    apply Qle_shift_div_l; lra. }
  assert (Ht : GameLoop.gameTime c <= t).
  { subst t. unfold Double.add. apply round_above; [done | lra]. }
  assert (Hstep : 0 <= Double.mul 100 dt <= 10).
  { unfold Double.mul. split; [apply round_sign; lra |].
    apply Qle_trans with (Double.round (100 * Double.literal (1 # 10)));
      [apply round_mono; lra | by vm_compute]. }
  assert (Hrun : 0 <= Double.mul (Double.mul 100 dt) (GameLoop.gameSpeed c)).
  { unfold Double.mul at 1. apply round_sign. nra. }
  split; [done |]. split; [done |].
  split; [unfold Double.add; apply round_above; [done | lra] |].
  split.
  { unfold Double.add. apply round_mono.
    assert (Double.mul (Double.mul 100 dt) (GameLoop.gameSpeed c)
            <= Double.mul 10 (GameLoop.gameSpeed c)).
    { unfold Double.mul at 1 3. apply round_mono. nra. }
    lra. }
  set (s := Double.add 1 (Double.mul t (Double.literal (1 # 100)))).
  assert (Hs : 1 <= s).
  { subst s. unfold Double.add, Double.mul. apply round_above; [done |].
    pose proof (proj1 (round_sign (t * Double.literal (1 # 100))) ltac:(nra)). lra. }
  split.
  { split; [apply Q.min_glb; lra | apply Q.le_min_l]. }
  split.
  - intros Hlate.
    assert (2 <= s).
    { subst s. unfold Double.add, Double.mul. apply round_above; [done |].
      assert (1 <= Double.round (t * Double.literal (1 # 100)))
        by (apply round_above; [done | nra]).
      lra. }
    destruct (Q.min_spec 2 s) as [[H1 H2] | [H1 H2]]; lra.
  - intros Hearly.
    assert (s <= Double.add 1 (Double.mul 99 (Double.literal (1 # 100)))).
    { subst s. unfold Double.add, Double.mul. apply round_mono.
      assert (Double.round (t * Double.literal (1 # 100))
              <= Double.round (99 * Double.literal (1 # 100)))
        by (apply round_mono; nra).
      lra. }
    assert (Double.add 1 (Double.mul 99 (Double.literal (1 # 100))) < 2)
      by (by vm_compute).
    pose proof (Q.le_min_r 2 s). lra.
Qed.

Lemma X17_clock_bounds_witness :
  let c := GameLoop.mkClock 1000 50 (1 # 64) 5000 (3 # 2) 50 in
  1 <= GameLoop.gameSpeed (GameLoop.tick 1500 c) <= 2
  ∧ GameLoop.deltaTime (GameLoop.tick 1500 c) <= Double.literal (1 # 10).
Proof.
  intros c. destruct (X17_clock_bounds 1500 c) as (Hcap & Hrun & _).
  split; [| exact Hcap].
  apply Hrun; by vm_compute.
Defined.

(** ** Renderer *)

(** X18: the shake only grows through [addShake], which never lowers
    it; each rendered frame multiplies a positive shake by 0.9 and cuts
    it to 0 below 0.1, so that it never grows, never turns negative,
    and is either 0 or at least 0.1 afterwards. *)
Theorem X18_shake (amount shakeAmount : Q) :
  shakeAmount <= Renderer.addShake amount shakeAmount
  ∧ amount <= Renderer.addShake amount shakeAmount
  ∧ (0 <= shakeAmount →
     0 <= Renderer.decayShake shakeAmount <= shakeAmount
     ∧ (Renderer.decayShake shakeAmount = 0 ∨ 1 # 10 <= Renderer.decayShake shakeAmount
        ∨ shakeAmount == 0)
     ∧ (0 < shakeAmount → Renderer.decayShake shakeAmount < shakeAmount)).
Proof.
  unfold Renderer.addShake, Renderer.decayShake.
  split; [apply Q.le_max_l |]. split; [apply Q.le_max_r |].
  intros Hpos. destruct (Num.gtb shakeAmount 0) eqn:Hshake.
  - apply gtb_gt in Hshake. destruct (Num.ltb _ _) eqn:Hsmall.
    + split; [lra |]. split; [by left |]. intros _. done.
    + apply ltb_ge in Hsmall. split; [lra |]. split; [right; by left |]. intros _. lra.
  - apply gtb_le in Hshake. split; [lra |]. split; [right; right; lra |]. intros. lra.
Qed.



(** ** The player *)

Ltac player_cases :=
  unfold PlayerSystem.step;
  repeat (simpl;
          match goal with
          | |- context [if ?c then _ else _] => destruct c eqn:?
          | |- context [match ?o with Some _ => _ | None => _ end] => destruct o eqn:?
          end);
  simpl.

(** X20: a pass of the player system consumes the three action flags,
    never touches the health points, and regenerates
    the spray power towards its maximum: a power within the maximum
    stays within it, and does not drop when the regeneration rate and
    the frame delta are non-negative. *)
Theorem X20_player_pass (deltaTime pulse : Q) (transform : Transform.t) (p : PlayerSystem.Parts) :
  let p' := (PlayerSystem.step deltaTime pulse transform p).1 in
  PlayerController.actions (PlayerSystem.controller p') = Actions.mk false false false
  ∧ PlayerController.maxSprayPower (PlayerSystem.controller p')
      = PlayerController.maxSprayPower (PlayerSystem.controller p)
  ∧ (Health.current <$> PlayerSystem.health p') = (Health.current <$> PlayerSystem.health p)
  ∧ (PlayerController.sprayPower (PlayerSystem.controller p)
       <= PlayerController.maxSprayPower (PlayerSystem.controller p) →
     PlayerController.sprayPower (PlayerSystem.controller p')
       <= PlayerController.maxSprayPower (PlayerSystem.controller p))
  ∧ (0 <= PlayerController.sprayRegenRate (PlayerSystem.controller p) * deltaTime →
     PlayerController.sprayPower (PlayerSystem.controller p)
       <= PlayerController.sprayPower (PlayerSystem.controller p')).
Proof.
  intros p'. subst p'.
  destruct p as [velocity controller physics health sprite animation collider].
  pose proof (Q.min_spec (PlayerController.maxSprayPower controller)
                (PlayerController.sprayPower controller
                 + PlayerController.sprayRegenRate controller * deltaTime)) as Hmin.
  player_cases;
    (split; [reflexivity |]); (split; [reflexivity |]); (split; [reflexivity |]);
    repeat match goal with
      | H : Num.ltb _ _ = true |- _ => apply ltb_lt in H
      | H : Num.ltb _ _ = false |- _ => apply ltb_ge in H
      end;
    (split; [intros Hin | intros Hregen]); destruct Hmin as [[H1 H2] | [H1 H2]]; lra.
Qed.

Ltac use_flags :=
  repeat match goal with
    | H : _ = true |- _ => rewrite H
    | H : _ = false |- _ => rewrite H
    end.

Ltac player_cases_with_flags :=
  unfold PlayerSystem.step;
  repeat (simpl; use_flags;
          match goal with
          | |- context [if ?c then _ else _] => destruct c eqn:?
          | |- context [match ?o with Some _ => _ | None => _ end] => destruct o eqn:?
          end);
  simpl; use_flags; simpl.

(** X21: a jump starts exactly when the jump flag is set on a grounded
    player that is not already jumping: the vertical velocity becomes
    minus the jump force and the player leaves the ground; in every
    other case the velocity and the Physics are left alone and the
    jumping flag is kept only off the ground. After every pass, a
    jumping player is off the ground. *)
Theorem X21_jump (deltaTime pulse : Q) (transform : Transform.t) (p : PlayerSystem.Parts) :
  let p' := (PlayerSystem.step deltaTime pulse transform p).1 in
  let jumps :=
    Actions.jump (PlayerController.actions (PlayerSystem.controller p))
    && Physics.grounded (PlayerSystem.physics p)
    && negb (PlayerController.isJumping (PlayerSystem.controller p)) in
  (jumps = true →
   Velocity.vy (PlayerSystem.velocity p')
     = - PlayerController.jumpForce (PlayerSystem.controller p)
   ∧ Velocity.vx (PlayerSystem.velocity p') = Velocity.vx (PlayerSystem.velocity p)
   ∧ Physics.grounded (PlayerSystem.physics p') = false
   ∧ PlayerController.isJumping (PlayerSystem.controller p') = true)
  ∧ (jumps = false →
     PlayerSystem.velocity p' = PlayerSystem.velocity p
     ∧ PlayerSystem.physics p' = PlayerSystem.physics p
     ∧ PlayerController.isJumping (PlayerSystem.controller p')
         = PlayerController.isJumping (PlayerSystem.controller p)
           && negb (Physics.grounded (PlayerSystem.physics p)))
  ∧ (PlayerController.isJumping (PlayerSystem.controller p') = true →
     Physics.grounded (PlayerSystem.physics p') = false).
Proof.
  intros p' jumps. subst p' jumps.
  destruct p as [velocity controller physics health sprite animation collider].
  simpl PlayerSystem.controller. simpl PlayerSystem.physics. simpl PlayerSystem.velocity.
  destruct (Actions.jump (PlayerController.actions controller)) eqn:Hjump,
           (Physics.grounded physics) eqn:Hgrounded,
           (PlayerController.isJumping controller) eqn:Hjumping;
    player_cases_with_flags; repeat split; intros; try done.
Qed.

(** X22: the player ducks exactly while the duck flag is set and it is
    on the ground once the jump has been handled, so a jump that starts
    in the same pass wins; the collider takes the low shape (height 20,
    offset 12) while ducking and the standing shape (height 32, offset
    0) otherwise. *)
Theorem X22_duck (deltaTime pulse : Q) (transform : Transform.t) (p : PlayerSystem.Parts) :
  let p' := (PlayerSystem.step deltaTime pulse transform p).1 in
  let ducks :=
    Actions.duck (PlayerController.actions (PlayerSystem.controller p))
    && Physics.grounded (PlayerSystem.physics p') in
  PlayerController.isDucking (PlayerSystem.controller p') = ducks
  ∧ PlayerSystem.collider p'
      = ((λ c, if ducks
               then Collider.set_offsetY 12 (Collider.set_height 20 c)
               else Collider.set_offsetY 0 (Collider.set_height 32 c))
           <$> PlayerSystem.collider p)
  ∧ (Actions.jump (PlayerController.actions (PlayerSystem.controller p))
     && Physics.grounded (PlayerSystem.physics p)
     && negb (PlayerController.isJumping (PlayerSystem.controller p)) = true →
     ducks = false).
Proof.
  intros p' ducks. subst p' ducks.
  destruct p as [velocity controller physics health sprite animation collider].
  simpl PlayerSystem.controller. simpl PlayerSystem.physics. simpl PlayerSystem.collider.
  destruct (Actions.jump (PlayerController.actions controller)) eqn:Hjump,
           (Physics.grounded physics) eqn:Hgrounded,
           (PlayerController.isJumping controller) eqn:Hjumping,
           (Actions.duck (PlayerController.actions controller)) eqn:Hduck;
    player_cases_with_flags; repeat split; intros; try done.
Qed.


(** ** Patrol, chase and guard *)







(** ** The AI pass *)



(** ** World generation *)

Lemma pick_elem (random : Q) (available : list WorldGenerator.Pattern) (selected : WorldGenerator.Pattern) :
  WorldGenerator.pick random available selected ∈ available
  ∨ WorldGenerator.pick random available selected = selected.
Proof.
  revert random. induction available as [| p rest IH]; intros random; simpl; [by right |].
  destruct (negb _).
  - left. apply elem_of_cons. by left.
  - destruct (IH (random - WorldGenerator.weight p)) as [Hin | Heq]; [| by right].
    left. apply elem_of_cons. by right.
Qed.

(** X27: [spawnPattern] only ever executes a pattern of its table whose
    minimum distance the run has reached, whatever the random draw; it
    executes none exactly when no pattern is available, which cannot
    happen with the table of the game once the distance is
    non-negative. *)
Theorem X27_pattern_gate (patterns : list WorldGenerator.Pattern) (distance random : Q) :
  (∀ p, WorldGenerator.selectPattern patterns distance random = Some p →
        p ∈ patterns ∧ WorldGenerator.minDistance p <= distance)
  ∧ (WorldGenerator.selectPattern patterns distance random = None ↔
     ∀ p, p ∈ patterns → distance < WorldGenerator.minDistance p)
  ∧ (0 <= distance →
     is_Some (WorldGenerator.selectPattern WorldGenerator.initPatterns distance random)).
Proof.
  assert (Havail : ∀ p, p ∈ WorldGenerator.availablePatterns patterns distance ↔
                        p ∈ patterns ∧ WorldGenerator.minDistance p <= distance).
  { intros p. unfold WorldGenerator.availablePatterns.
    rewrite !list_elem_of_In, filter_In, geb_ge. tauto. }
  unfold WorldGenerator.selectPattern. split; [| split].
  - intros p. destruct (WorldGenerator.availablePatterns patterns distance)
      as [| first rest] eqn:Hlist; [done |].
    assert (Hpick : ∀ r, WorldGenerator.pick r (first :: rest) first ∈ first :: rest).
    { intros r. destruct (pick_elem r (first :: rest) first) as [Hin | Heq]; [done |].
      rewrite Heq. apply elem_of_cons. by left. }
    intros [= <-]. apply Havail. apply Hpick.
  - destruct (WorldGenerator.availablePatterns patterns distance)
      as [| first rest] eqn:Hlist.
    + split; [| done]. intros _ p Hp.
      destruct (Qlt_le_dec distance (WorldGenerator.minDistance p)) as [Hlt | Hle]; [done |].
      assert (p ∈ @nil WorldGenerator.Pattern) as Hnil by (apply Havail; done).
      by apply elem_of_nil in Hnil.
    + split; [done |]. intros Hnone.
      assert (first ∈ first :: rest) as Hfirst by (apply elem_of_cons; by left).
      apply Havail in Hfirst as [Hin Hle]. specialize (Hnone first Hin). lra.
  - intros Hdistance. unfold WorldGenerator.availablePatterns, WorldGenerator.initPatterns.
    simpl. assert (Num.geb distance 0 = true) as -> by (by apply geb_ge).
    by eexists.
Qed.










(** ** Saving and loading achievements *)









